(** * Ad history table and priority buckets of brave_ads

    A shallow embedding of
    - [components/brave_ads/core/internal/history/ad_history_database_table.cc]
      (namespace [brave_ads::database::table], class [AdHistory]), and
    - [components/brave_ads/core/internal/serving/eligible_ads/priority/priority.h]
      ([SortCreativeAdsIntoBucketsByPriority], [HighestPriorityCreativeAds]),
    followed by the properties established about them. *)

From Stdlib Require Import ZArith List String Bool Lia Sorted Permutation.
From Equations Require Import Equations.
Import ListNotations.
Open Scope Z_scope.
Open Scope list_scope.

Set Implicit Arguments.

(* ===================================================================== *)
(** * Part I: priority buckets ([priority.h])                             *)
(* ===================================================================== *)

(** ** [base::flat_map<int, T>]

    A [base::flat_map] is a vector of (key, value) pairs kept sorted by key
    with unique keys.  [cbegin()] is the head of that vector, hence the entry
    with the numerically smallest key. *)
Module FlatMap.
Section FlatMap.
Variable V : Type.

Definition t : Type := list (Z * V).

Definition empty (m : t) : bool :=
  match m with [] => true | _ => false end.

Definition cbegin (m : t) : option (Z * V) :=
  match m with [] => None | e :: _ => Some e end.

Definition keys (m : t) : list Z := map fst m.

Fixpoint find (k : Z) (m : t) : option V :=
  match m with
  | [] => None
  | (k', v) :: m' => if k =? k' then Some v else find k m'
  end.

(** [m[k] = f (m[k])] where [operator[]] value-initialises a missing mapped
    value to [dflt] and inserts it at its sorted position. *)
Fixpoint update (k : Z) (dflt : V) (f : V -> V) (m : t) : t :=
  match m with
  | [] => [(k, f dflt)]
  | (k', v) :: m' =>
      if k <? k' then (k, f dflt) :: (k', v) :: m'
      else if k =? k' then (k', f v) :: m'
      else (k', v) :: update k dflt f m'
  end.

Definition sorted (m : t) : Prop := StronglySorted Z.lt (keys m).

(** The mapped value under [k], or [dflt] (what [operator[]] would
    value-initialise it to) when [k] is absent. *)
Definition value_at (dflt : V) (k : Z) (m : t) : V :=
  match find k m with Some v => v | None => dflt end.
End FlatMap.
End FlatMap.

Section Priority.
(** The templates are generic in the container's element type; all they
    read is the [int priority] member.  The priority is only compared,
    never computed with, so it is kept as an integer of [Z]. *)
Variable CreativeAd : Type.
Variable priority : CreativeAd -> Z.

Definition push_back (x : CreativeAd) (v : list CreativeAd) := v ++ [x].

(** One iteration of the loop body of [SortCreativeAdsIntoBucketsByPriority]. *)
Definition bucket_step (buckets : FlatMap.t (list CreativeAd))
    (creative_ad : CreativeAd) : FlatMap.t (list CreativeAd) :=
  if priority creative_ad =? 0 then
    (* Do not include ads with a priority of 0. *)
    buckets
  else
    FlatMap.update (priority creative_ad) [] (push_back creative_ad) buckets.

Definition SortCreativeAdsIntoBucketsByPriority
    (creative_ads : list CreativeAd) : FlatMap.t (list CreativeAd) :=
  fold_left bucket_step creative_ads [].

(** [LogNumberOfCreativeAdsPerBucket] only writes to the log and is left
    out. *)
Definition HighestPriorityCreativeAds
    (creative_ads : list CreativeAd) : list CreativeAd :=
  let buckets := SortCreativeAdsIntoBucketsByPriority creative_ads in
  if FlatMap.empty buckets then []
  else match FlatMap.cbegin buckets with
       | Some (_, ads) => ads
       | None => []
       end.

(** The candidates of [l] carrying priority [k], in input order. *)
Definition with_priority (k : Z) (l : list CreativeAd) : list CreativeAd :=
  filter (fun c => priority c =? k) l.
End Priority.

(* ===================================================================== *)
(** * Part II: the [ad_history] table ([ad_history_database_table.cc])    *)
(* ===================================================================== *)

Open Scope string_scope.
Open Scope Z_scope.
Open Scope list_scope.

(** ** Values exchanged with the database engine (mojom) *)

(** The column values this table binds and reads: [int64] and [string]. *)
Inductive DBColumnValueUnion : Type :=
| Int64Value (int64_value : Z)
| StringValue (string_value : string).

Inductive DBBindColumnType : Type := kInt64 | kString.

Record DBBindColumnInfo : Type := mkDBBindColumnInfo {
  index : Z;
  value_union : DBColumnValueUnion
}.

Record DBRowInfo : Type := mkDBRowInfo {
  column_values_union : list DBColumnValueUnion
}.

Inductive OperationType : Type := kRun | kStep.

(** Modelled from the spec: the result code of a statement result is declared
    in [brave_ads.mojom], not under [src/]; the source only names
    [kSuccess].  Section 6 of the spec: the engine "reports a result code
    (success/failure)". *)
Inductive ResultCode : Type := kSuccess | kFailed.

Definition ResultCode_eqb (a b : ResultCode) : bool :=
  match a, b with
  | kSuccess, kSuccess | kFailed, kFailed => true
  | _, _ => false
  end.

(** Modelled from the spec: the text [BuildBindColumnPlaceholders] returns is
    not under [src/]; section 4.2 says the batched insert "emits one
    statement with N value-tuples", each tuple holding one placeholder per
    column.  The text is kept as these two counts. *)
Record Placeholders : Type := mkPlaceholders {
  placeholder_columns : nat;
  placeholder_rows : nat
}.

(** Modelled from the spec: [BuildBindColumnPlaceholders]
    ([database_statement_util.h]) is not under [src/]; section 4.2: "one
    statement with N value-tuples". *)
Definition BuildBindColumnPlaceholders (column_count row_count : nat)
  : Placeholders :=
  mkPlaceholders column_count row_count.

(** The statement texts of this file.  Each constructor stands for one SQL
    template of the source with its [$n] placeholders substituted
    ([base::ReplaceStringPlaceholders]); timestamps substituted through
    [base::NumberToString] are kept as the integers they denote. *)
Inductive Sql : Type :=
| SqlInsert (table_name : string) (values : Placeholders)
    (* INSERT INTO $1 (created_at, ..., target_url) VALUES $2; *)
| SqlSelectForDateRange (table_name : string) (from_time to_time : Z)
    (* SELECT ... FROM $1 WHERE created_at BETWEEN $2 AND $3
       ORDER BY created_at DESC; *)
| SqlSelectHighestRankedPlacements (table_name : string) (from_time to_time : Z)
    (* WITH PrioritizedAdHistory AS (...), FilteredAdHistory AS (...)
       SELECT ... FROM FilteredAdHistory ORDER BY created_at DESC; *)
| SqlSelectForCreativeInstanceId (table_name : string) (id : string)
    (* SELECT ... FROM $1 WHERE creative_instance_id = '$2'; *)
| SqlDeleteExpired (table_name : string) (cutoff : Z).
    (* DELETE FROM $1 WHERE created_at <= $2; *)

Record DBStatementInfo : Type := mkDBStatementInfo {
  operation_type : OperationType;
  sql : option Sql;
  bind_columns : list DBBindColumnInfo;
  bind_column_types : list DBBindColumnType
}.

(** [mojom::DBStatementInfo::New()] with the [operation_type] assigned next. *)
Definition DBStatementInfo_New (op : OperationType) : DBStatementInfo :=
  mkDBStatementInfo op None [] [].

Definition set_sql (q : Sql) (s : DBStatementInfo) : DBStatementInfo :=
  mkDBStatementInfo (operation_type s) (Some q) (bind_columns s)
    (bind_column_types s).

Definition set_bind_column_types (tys : list DBBindColumnType)
    (s : DBStatementInfo) : DBStatementInfo :=
  mkDBStatementInfo (operation_type s) (sql s) (bind_columns s) tys.

Record DBTransactionInfo : Type := mkDBTransactionInfo {
  statements : list DBStatementInfo
}.

Definition DBTransactionInfo_New : DBTransactionInfo := mkDBTransactionInfo [].

Definition push_statement (s : DBStatementInfo) (tx : DBTransactionInfo)
  : DBTransactionInfo :=
  mkDBTransactionInfo (statements tx ++ [s]).

(** [rows_union] is a nullable pointer; [get_rows()] is its row list. *)
Record DBStatementResultInfo : Type := mkDBStatementResultInfo {
  result_code : ResultCode;
  rows_union : option (list DBRowInfo)
}.

(** [mojom::DBStatementResultInfoPtr]: [None] is the null pointer. *)
Definition DBStatementResultInfoPtr : Type := option DBStatementResultInfo.

(** ** Column helpers ([database_column_util.h]) *)

(** Modelled from the spec: [BindColumnInt64] and [BindColumnString] are not
    under [src/]; a bound parameter is a value at a zero-based position
    (section 4.2: "bound parameters sized N x column_count"). *)
Definition BindColumnInt64 (s : DBStatementInfo) (i : Z) (v : Z)
  : DBStatementInfo :=
  mkDBStatementInfo (operation_type s) (sql s)
    (bind_columns s ++ [mkDBBindColumnInfo i (Int64Value v)])
    (bind_column_types s).

(** Modelled from the spec: [BindColumnString], as [BindColumnInt64]. *)
Definition BindColumnString (s : DBStatementInfo) (i : Z) (v : string)
  : DBStatementInfo :=
  mkDBStatementInfo (operation_type s) (sql s)
    (bind_columns s ++ [mkDBBindColumnInfo i (StringValue v)])
    (bind_column_types s).

(** [s] with further bindings appended. *)
Definition with_bindings (s : DBStatementInfo) (b : list DBBindColumnInfo)
  : DBStatementInfo :=
  mkDBStatementInfo (operation_type s) (sql s) (bind_columns s ++ b)
    (bind_column_types s).

(** Modelled from the spec: [ColumnInt64] and [ColumnString] are not under
    [src/]; rows are "addressable by zero-based column index with typed
    accessors (int64, string)" (section 6), and "Decode never raises on
    malformed input" (section 4.1): a missing or differently typed column
    reads as the type's zero value. *)
Definition ColumnInt64 (row : DBRowInfo) (column : nat) : Z :=
  match nth_error (column_values_union row) column with
  | Some (Int64Value v) => v
  | _ => 0
  end.

(** Modelled from the spec: [ColumnString], as [ColumnInt64]. *)
Definition ColumnString (row : DBRowInfo) (column : nat) : string :=
  match nth_error (column_values_union row) column with
  | Some (StringValue s) => s
  | _ => ""
  end.

(** ** Time ([base::Time], [time_util.h]) *)

Definition int64_min : Z := - 2 ^ 63.
Definition int64_max : Z := 2 ^ 63 - 1.

Definition clamp_int64 (z : Z) : Z := Z.max int64_min (Z.min int64_max z).

(** Modelled from the spec: [base::Time] and the conversions
    [ToChromeTimestampFromTime] / [ToTimeFromChromeTimestamp] are not under
    [src/]; section 4.1: timestamps are "a fixed-point
    microseconds-since-epoch" integer.  A [Time] is that 64-bit count. *)
Record Time : Type := mkTime { us_ : Z }.

(** Modelled from the spec: [base::TimeDelta], a count of microseconds
    (the retention period is a duration, section 6). *)
Record TimeDelta : Type := mkTimeDelta { delta_ : Z }.

(** Modelled from the spec: [ToChromeTimestampFromTime] ([time_util.h]) is
    not under [src/]; section 4.1: the timestamp is encoded as its
    microseconds-since-epoch integer. *)
Definition ToChromeTimestampFromTime (time : Time) : Z := us_ time.

(** Modelled from the spec: [ToTimeFromChromeTimestamp] ([time_util.h]) is
    not under [src/]; section 4.1: the integer is "decoded back to the same
    timestamp type losslessly". *)
Definition ToTimeFromChromeTimestamp (timestamp : Z) : Time := mkTime timestamp.

(** Modelled from the spec: [time - delta] of [base::Time] is not under
    [src/]; section 4.4 has the cutoff as "now - retention_period".  The
    64-bit count saturates at the bounds of [int64_t]. *)
Definition Time_sub (time : Time) (delta : TimeDelta) : Time :=
  mkTime (clamp_int64 (us_ time - delta_ delta)).

(** ** Enumerations with string names, and URLs *)

(** Modelled from the spec: [AdType], [ConfirmationType] and their
    [ToString] / [ToAdType] / [ToConfirmationType] converters are not under
    [src/].  Section 4.1: an enum is "encoded as [its] canonical lowercase
    string name and decoded via a strict lookup that fails closed (unknown
    string -> a designated undefined enum member)". *)
Class EnumStrings (E : Type) : Type := {
  kUndefined : E;
  is_defined : E -> bool;
  ToString : E -> string;
  FromString : string -> E;
  is_defined_spec : forall e, is_defined e = true <-> e <> kUndefined;
  FromString_ToString :
    forall e, e <> kUndefined -> FromString (ToString e) = e
}.

(** Modelled from the spec: [GURL] ([url/gurl.h]) is not under [src/];
    section 3 has [target_url] as a "validated URL" that must be
    well-formed.  What the table uses of it: construction from a string,
    the canonical [spec()], [is_valid()], and that a valid URL is recovered
    from its own spec. *)
Class Url (U : Type) : Type := {
  GURL : string -> U;
  spec : U -> string;
  is_valid : U -> bool;
  GURL_spec : forall u, is_valid u = true -> GURL (spec u) = u
}.

(** ** The stored table and the meaning of the statements *)

(** One stored row of
    [CREATE TABLE ad_history (id INTEGER PRIMARY KEY AUTOINCREMENT NOT NULL,
     created_at TIMESTAMP NOT NULL, type TEXT NOT NULL, ...)]. *)
Record TableRow : Type := mkTableRow {
  row_id : Z;
  row_created_at : Z;
  row_type : string;
  row_confirmation_type : string;
  row_placement_id : string;
  row_creative_instance_id : string;
  row_creative_set_id : string;
  row_campaign_id : string;
  row_advertiser_id : string;
  row_segment : string;
  row_title : string;
  row_description : string;
  row_target_url : string
}.

Definition Table : Type := list TableRow.

(** [SELECT created_at, type, confirmation_type, placement_id,
     creative_instance_id, creative_set_id, campaign_id, advertiser_id,
     segment, title, description, target_url]. *)
Definition select_columns (r : TableRow) : DBRowInfo :=
  mkDBRowInfo
    [ Int64Value (row_created_at r);
      StringValue (row_type r);
      StringValue (row_confirmation_type r);
      StringValue (row_placement_id r);
      StringValue (row_creative_instance_id r);
      StringValue (row_creative_set_id r);
      StringValue (row_campaign_id r);
      StringValue (row_advertiser_id r);
      StringValue (row_segment r);
      StringValue (row_title r);
      StringValue (row_description r);
      StringValue (row_target_url r) ].

(** [x BETWEEN lo AND hi]: both bounds inclusive. *)
Definition between (lo hi x : Z) : bool := (lo <=? x) && (x <=? hi).

(** [ORDER BY created_at DESC], as a stable insertion sort. *)
Fixpoint insert_desc (r : TableRow) (l : list TableRow) : list TableRow :=
  match l with
  | [] => [r]
  | x :: l' =>
      if row_created_at x <=? row_created_at r then r :: x :: l'
      else x :: insert_desc r l'
  end.

Definition order_by_created_at_desc (l : list TableRow) : list TableRow :=
  fold_right insert_desc [] l.

(** [CASE confirmation_type WHEN 'click' THEN 1 WHEN 'dismiss' THEN 2
     WHEN 'view' THEN 3 ELSE 0 END AS priority]. *)
Definition confirmation_priority (confirmation_type : string) : Z :=
  if String.eqb confirmation_type "click" then 1
  else if String.eqb confirmation_type "dismiss" then 2
  else if String.eqb confirmation_type "view" then 3
  else 0.

(** The priority the ranking query assigns to a stored row. *)
Definition row_priority (r : TableRow) : Z :=
  confirmation_priority (row_confirmation_type r).

(** [a] may precede [b] in a result ordered by [created_at] descending. *)
Definition newest_first (a b : TableRow) : Prop :=
  row_created_at b <= row_created_at a.

(** [WITH PrioritizedAdHistory AS (SELECT *, CASE ... END AS priority
     FROM $1 WHERE created_at BETWEEN $2 AND $3)]. *)
Definition PrioritizedAdHistory (table : Table) (from_time to_time : Z)
  : list (TableRow * Z) :=
  map (fun r => (r, confirmation_priority (row_confirmation_type r)))
      (filter (fun r => between from_time to_time (row_created_at r)) table).

(** The aggregate [MIN(...)]: [NULL] ([None]) over no rows. *)
Fixpoint sql_min (l : list Z) : option Z :=
  match l with
  | [] => None
  | x :: l' =>
      match sql_min l' with
      | None => Some x
      | Some m => Some (Z.min x m)
      end
  end.

(** [SELECT MIN(priority) FROM PrioritizedAdHistory AS other_ad_history
     WHERE other_ad_history.placement_id = ad_history.placement_id
       AND other_ad_history.priority > 0]. *)
Definition min_positive_priority (prioritized : list (TableRow * Z))
    (placement_id : string) : option Z :=
  sql_min
    (map snd
       (filter (fun other =>
                  String.eqb (row_placement_id (fst other)) placement_id
                  && (0 <? snd other))
               prioritized)).

(** [priority = (subquery)] in a [WHERE] clause: a comparison with [NULL] is
    not true, so the row is not kept. *)
Definition where_equals (priority : Z) (subquery : option Z) : bool :=
  match subquery with
  | Some m => priority =? m
  | None => false
  end.

(** [FilteredAdHistory AS (SELECT * FROM PrioritizedAdHistory as ad_history
     WHERE priority = (SELECT MIN(priority) ...))]. *)
Definition FilteredAdHistory (prioritized : list (TableRow * Z))
  : list (TableRow * Z) :=
  filter (fun ad_history =>
            where_equals (snd ad_history)
              (min_positive_priority prioritized
                 (row_placement_id (fst ad_history))))
         prioritized.

(** The rows a statement of this file selects from a table with the given
    contents, before the projection [select_columns]; [None] for a statement
    that selects nothing or whose text depends on its quoting
    ([creative_instance_id = '$2'] is that comparison only for an id without
    a quote character). *)
Definition selected_rows (q : Sql) (table : Table) : option (list TableRow) :=
  match q with
  | SqlSelectForDateRange _ from_time to_time =>
      Some (order_by_created_at_desc
              (filter (fun r => between from_time to_time (row_created_at r))
                      table))
  | SqlSelectHighestRankedPlacements _ from_time to_time =>
      Some (order_by_created_at_desc
              (map fst
                 (FilteredAdHistory
                    (PrioritizedAdHistory table from_time to_time))))
  | SqlSelectForCreativeInstanceId _ id =>
      match String.index 0 "'" id with
      | None =>
          Some (filter (fun r => String.eqb (row_creative_instance_id r) id)
                       table)
      | Some _ => None
      end
  | SqlInsert _ _ | SqlDeleteExpired _ _ => None
  end.

(** The contents of the table after [DELETE FROM $1 WHERE created_at <= $2]. *)
Definition delete_expired (cutoff : Z) (table : Table) : Table :=
  filter (fun r => negb (row_created_at r <=? cutoff)) table.


(** ** Asynchronous calls into the engine

    An operation of the table either runs its completion callback at once
    ([Ret]: the value is the callback's argument), trips a [CHECK]
    ([CheckFailure]: the process is terminated), or hands one transaction
    to the engine together with the callback that receives the engine's
    statement result ([RunDBTransaction]). *)
Inductive Ads (R : Type) : Type :=
| Ret (r : R)
| CheckFailure
| RunDBTransaction (mojom_transaction : DBTransactionInfo)
    (callback : DBStatementResultInfoPtr -> Ads R).

Arguments CheckFailure {R}.

(** Running an operation against an engine: the transactions submitted, in
    order, and the argument the completion callback was run with ([None]
    when a [CHECK] stopped the process before). *)
Fixpoint run {R : Type}
    (engine : DBTransactionInfo -> DBStatementResultInfoPtr)
    (op : Ads R) : list DBTransactionInfo * option R :=
  match op with
  | Ret r => ([], Some r)
  | CheckFailure => ([], None)
  | RunDBTransaction tx callback =>
      let (submitted, r) := run engine (callback (engine tx)) in
      (tx :: submitted, r)
  end.

(** Modelled from the spec: the success test of [RunTransaction]
    ([database_transaction_util.h]) is not under [src/].  Section 4.4:
    engine-level execution failure surfaces as "failure" to Save/Purge
    completions; the test for success is the one [GetCallback] makes. *)
Definition IsTransactionSuccessful (r : DBStatementResultInfoPtr) : bool :=
  match r with
  | None => false
  | Some result => ResultCode_eqb (result_code result) kSuccess
  end.

(** Modelled from the spec: [RunTransaction]
    ([database_transaction_util.h]) is not under [src/]; section 7: for an
    execution failure the policy is to "propagate a boolean/absence signal
    to the caller's completion". *)
Definition RunTransaction (mojom_transaction : DBTransactionInfo) : Ads bool :=
  RunDBTransaction mojom_transaction
    (fun r => Ret (IsTransactionSuccessful r)).


(** Modelled from the spec: [SplitVector] ([container_util.h]) is not under
    [src/]; section 4.4: Save "groups the input into fixed-size batches",
    and section 8: 120 records with batch size 50 give batches of 50, 50 and
    20.  A chunk size of zero gives no batch. *)
Equations? SplitVector {A : Type} (elements : list A) (chunk_size : nat)
  : list (list A) by wf (List.length elements) lt :=
  SplitVector [] _ := [];
  SplitVector _ O := [];
  SplitVector (x :: l) (S n) :=
    firstn (S n) (x :: l) :: SplitVector (skipn (S n) (x :: l)) (S n).
Proof.
  simpl. pose proof (List.length_skipn n l). lia.
Qed.

(** ** The table class *)

Definition kTableName : string := "ad_history".

Definition kDefaultBatchSize : nat := 50.

(** [class AdHistory]: its only data member is [batch_size_]. *)
Record AdHistory : Type := mkAdHistory { batch_size_ : nat }.

(** [AdHistory::AdHistory() : batch_size_(kDefaultBatchSize) {}] *)
Definition AdHistory_ctor : AdHistory := mkAdHistory kDefaultBatchSize.

Definition GetTableName (this : AdHistory) : string := kTableName.

Definition BindColumnTypes (mojom_statement : DBStatementInfo)
  : DBStatementInfo :=
  set_bind_column_types
    [ kInt64;   (* created_at *)
      kString;  (* type *)
      kString;  (* confirmation_type *)
      kString;  (* placement_id *)
      kString;  (* creative_instance_id *)
      kString;  (* creative_set_id *)
      kString;  (* campaign_id *)
      kString;  (* advertiser_id *)
      kString;  (* segment *)
      kString;  (* title *)
      kString;  (* description *)
      kString   (* target_url *) ]
    mojom_statement.

Section AdHistoryTable.
Context {AdType ConfirmationType Gurl : Type}.
Context {AdTypeStrings : EnumStrings AdType}.
Context {ConfirmationTypeStrings : EnumStrings ConfirmationType}.
Context {GurlUrl : Url Gurl}.

Record AdHistoryItemInfo : Type := mkAdHistoryItemInfo {
  created_at : Time;
  type : AdType;
  confirmation_type : ConfirmationType;
  placement_id : string;
  creative_instance_id : string;
  creative_set_id : string;
  campaign_id : string;
  advertiser_id : string;
  segment : string;
  title : string;
  description : string;
  target_url : Gurl
}.

Definition AdHistoryList : Type := list AdHistoryItemInfo.

Definition ToAdType (value : string) : AdType := FromString value.

Definition ToConfirmationType (value : string) : ConfirmationType :=
  FromString value.

Definition non_empty (s : string) : bool :=
  match s with EmptyString => false | _ => true end.

(** Modelled from the spec: [AdHistoryItemInfo::IsValid] is not under
    [src/].  Section 3: "a record is valid only if every identifier field
    and target_url is non-empty/well-formed; ad_type and confirmation_type
    must be members of their respective enumerations". *)
Definition IsValid (item : AdHistoryItemInfo) : bool :=
  is_defined (type item)
  && is_defined (confirmation_type item)
  && non_empty (placement_id item)
  && non_empty (creative_instance_id item)
  && non_empty (creative_set_id item)
  && non_empty (campaign_id item)
  && non_empty (advertiser_id item)
  && is_valid (target_url item).

(** The body of the loop of [BindColumns] for a valid item: twelve
    bindings at [index], [index + 1], ..., [index + 11]. *)
Definition bind_item (mojom_statement : DBStatementInfo) (index : Z)
    (ad_history_item : AdHistoryItemInfo) : DBStatementInfo :=
  let s := BindColumnInt64 mojom_statement index
             (ToChromeTimestampFromTime (created_at ad_history_item)) in
  let s := BindColumnString s (index + 1) (ToString (type ad_history_item)) in
  let s := BindColumnString s (index + 2)
             (ToString (confirmation_type ad_history_item)) in
  let s := BindColumnString s (index + 3) (placement_id ad_history_item) in
  let s := BindColumnString s (index + 4)
             (creative_instance_id ad_history_item) in
  let s := BindColumnString s (index + 5) (creative_set_id ad_history_item) in
  let s := BindColumnString s (index + 6) (campaign_id ad_history_item) in
  let s := BindColumnString s (index + 7) (advertiser_id ad_history_item) in
  let s := BindColumnString s (index + 8) (segment ad_history_item) in
  let s := BindColumnString s (index + 9) (title ad_history_item) in
  let s := BindColumnString s (index + 10) (description ad_history_item) in
  BindColumnString s (index + 11) (spec (target_url ad_history_item)).

(** The [for] loop of [BindColumns], carrying the statement, [index] and
    [row_count]. *)
Fixpoint BindColumns_loop (mojom_statement : DBStatementInfo) (index : Z)
    (row_count : nat) (ad_history : AdHistoryList)
  : DBStatementInfo * nat :=
  match ad_history with
  | [] => (mojom_statement, row_count)
  | ad_history_item :: rest =>
      if negb (IsValid ad_history_item) then
        (* "Invalid ad history item": continue *)
        BindColumns_loop mojom_statement index row_count rest
      else
        BindColumns_loop (bind_item mojom_statement index ad_history_item)
          (index + 12) (S row_count) rest
  end.

(** [BindColumns]; [None] when [CHECK(!ad_history.empty())] fails. *)
Definition BindColumns (mojom_statement : DBStatementInfo)
    (ad_history : AdHistoryList) : option (DBStatementInfo * nat) :=
  match ad_history with
  | [] => None
  | _ => Some (BindColumns_loop mojom_statement 0 0 ad_history)
  end.

Definition FromMojomRow (mojom_row : DBRowInfo) : AdHistoryItemInfo :=
  mkAdHistoryItemInfo
    (ToTimeFromChromeTimestamp (ColumnInt64 mojom_row 0))
    (ToAdType (ColumnString mojom_row 1))
    (ToConfirmationType (ColumnString mojom_row 2))
    (ColumnString mojom_row 3)
    (ColumnString mojom_row 4)
    (ColumnString mojom_row 5)
    (ColumnString mojom_row 6)
    (ColumnString mojom_row 7)
    (ColumnString mojom_row 8)
    (ColumnString mojom_row 9)
    (ColumnString mojom_row 10)
    (GURL (ColumnString mojom_row 11)).

(** The [for] loop of [GetCallback] over the rows of a result. *)
Fixpoint GetCallback_rows (rows : list DBRowInfo) : AdHistoryList :=
  match rows with
  | [] => []
  | mojom_row :: rest =>
      let ad_history_item := FromMojomRow mojom_row in
      if negb (IsValid ad_history_item) then
        (* "Invalid ad history item": continue *)
        GetCallback_rows rest
      else
        ad_history_item :: GetCallback_rows rest
  end.

(** [GetCallback]: the value is the argument its [callback] is run with. *)
Definition GetCallback (mojom_statement_result : DBStatementResultInfoPtr)
  : Ads (option AdHistoryList) :=
  match mojom_statement_result with
  | None => Ret None
  | Some result =>
      if negb (ResultCode_eqb (result_code result) kSuccess) then Ret None
      else
        match rows_union result with
        | None => CheckFailure      (* CHECK(rows_union) *)
        | Some rows => Ret (Some (GetCallback_rows rows))
        end
  end.

(** [BuildInsertSql]: the statement with its bindings, and the text. *)
Definition BuildInsertSql (this : AdHistory)
    (mojom_statement : DBStatementInfo) (ad_history : AdHistoryList)
  : option (DBStatementInfo * Sql) :=
  match ad_history with
  | [] => None                      (* CHECK(!ad_history.empty()) *)
  | _ =>
      match BindColumns mojom_statement ad_history with
      | None => None
      | Some (mojom_statement, row_count) =>
          Some (mojom_statement,
                SqlInsert (GetTableName this)
                  (BuildBindColumnPlaceholders 12 row_count))
      end
  end.

Definition Insert (this : AdHistory) (mojom_transaction : DBTransactionInfo)
    (ad_history : AdHistoryList) : option DBTransactionInfo :=
  match ad_history with
  | [] => Some mojom_transaction
  | _ =>
      let mojom_statement := DBStatementInfo_New kRun in
      match BuildInsertSql this mojom_statement ad_history with
      | None => None
      | Some (mojom_statement, text) =>
          Some (push_statement (set_sql text mojom_statement)
                  mojom_transaction)
      end
  end.

(** The loop [for (const auto& batch : batches) Insert(tx, batch)]. *)
Fixpoint Insert_batches (this : AdHistory)
    (mojom_transaction : DBTransactionInfo) (batches : list AdHistoryList)
  : option DBTransactionInfo :=
  match batches with
  | [] => Some mojom_transaction
  | batch :: rest =>
      match Insert this mojom_transaction batch with
      | None => None
      | Some mojom_transaction => Insert_batches this mojom_transaction rest
      end
  end.

Definition Save (this : AdHistory) (ad_history : AdHistoryList) : Ads bool :=
  match ad_history with
  | [] => Ret true
  | _ =>
      let mojom_transaction := DBTransactionInfo_New in
      let batches := SplitVector ad_history (batch_size_ this) in
      match Insert_batches this mojom_transaction batches with
      | None => CheckFailure
      | Some mojom_transaction => RunTransaction mojom_transaction
      end
  end.

(** The single [kStep] statement of a [Get*] operation. *)
Definition step_statement (q : Sql) : DBStatementInfo :=
  BindColumnTypes (set_sql q (DBStatementInfo_New kStep)).

Definition GetForDateRange (this : AdHistory) (from_time to_time : Time)
  : Ads (option AdHistoryList) :=
  let mojom_transaction := DBTransactionInfo_New in
  let mojom_statement :=
    step_statement
      (SqlSelectForDateRange (GetTableName this)
         (ToChromeTimestampFromTime from_time)
         (ToChromeTimestampFromTime to_time)) in
  RunDBTransaction (push_statement mojom_statement mojom_transaction)
    GetCallback.

Definition GetHighestRankedPlacementsForDateRange (this : AdHistory)
    (from_time to_time : Time) : Ads (option AdHistoryList) :=
  let mojom_transaction := DBTransactionInfo_New in
  let mojom_statement :=
    step_statement
      (SqlSelectHighestRankedPlacements (GetTableName this)
         (ToChromeTimestampFromTime from_time)
         (ToChromeTimestampFromTime to_time)) in
  RunDBTransaction (push_statement mojom_statement mojom_transaction)
    GetCallback.

Definition GetForCreativeInstanceId (this : AdHistory)
    (creative_instance_id : string) : Ads (option AdHistoryList) :=
  let mojom_transaction := DBTransactionInfo_New in
  let mojom_statement :=
    step_statement
      (SqlSelectForCreativeInstanceId (GetTableName this)
         creative_instance_id) in
  RunDBTransaction (push_statement mojom_statement mojom_transaction)
    GetCallback.

(** The twelve column values [BindColumns] binds for one valid item, in
    binding order (the spec's [Encode]). *)
Definition Encode (ad_history_item : AdHistoryItemInfo)
  : list DBColumnValueUnion :=
  [ Int64Value (ToChromeTimestampFromTime (created_at ad_history_item));
    StringValue (ToString (type ad_history_item));
    StringValue (ToString (confirmation_type ad_history_item));
    StringValue (placement_id ad_history_item);
    StringValue (creative_instance_id ad_history_item);
    StringValue (creative_set_id ad_history_item);
    StringValue (campaign_id ad_history_item);
    StringValue (advertiser_id ad_history_item);
    StringValue (segment ad_history_item);
    StringValue (title ad_history_item);
    StringValue (description ad_history_item);
    StringValue (spec (target_url ad_history_item)) ].

(** The statement [Insert] appends for a batch: a [kRun] statement with the
    bindings and the text [BuildInsertSql] gives it. *)
Definition insert_statement (this : AdHistory) (batch : AdHistoryList)
  : DBStatementInfo :=
  let (mojom_statement, row_count) :=
    BindColumns_loop (DBStatementInfo_New kRun) 0 0 batch in
  set_sql (SqlInsert (GetTableName this)
             (BuildBindColumnPlaceholders 12 row_count))
          mojom_statement.
End AdHistoryTable.

(** Values bound at consecutive positions from [index] on. *)
Fixpoint bindings_from (index : Z) (values : list DBColumnValueUnion)
  : list DBBindColumnInfo :=
  match values with
  | [] => []
  | v :: rest => mkDBBindColumnInfo index v :: bindings_from (index + 1) rest
  end.

(** The row the engine reads back from the values of one value tuple. *)
Definition bound_row (bindings : list DBBindColumnInfo) : DBRowInfo :=
  mkDBRowInfo (map value_union bindings).


(** ** Schema creation and migration *)

Section Schema.
(** The overload [Execute(mojom_transaction, sql)] without placeholders
    ([database_transaction_util.h]) and [CreateTableIndex]
    ([database_table_util.h]) are not under [src/]; each adds to the
    transaction it is handed and is taken as a parameter. *)
Variable ExecuteSql : DBTransactionInfo -> string -> DBTransactionInfo.
Variable CreateTableIndex :
  DBTransactionInfo -> string -> list string -> DBTransactionInfo.

Definition MigrateToV42 (mojom_transaction : DBTransactionInfo)
  : DBTransactionInfo :=
  let mojom_transaction := ExecuteSql mojom_transaction "
      CREATE TABLE ad_history (
        id INTEGER PRIMARY KEY AUTOINCREMENT NOT NULL,
        created_at TIMESTAMP NOT NULL,
        type TEXT NOT NULL,
        confirmation_type TEXT NOT NULL,
        placement_id TEXT NOT NULL,
        creative_instance_id TEXT NOT NULL,
        creative_set_id TEXT NOT NULL,
        campaign_id TEXT NOT NULL,
        advertiser_id TEXT NOT NULL,
        segment TEXT NOT NULL,
        title TEXT NOT NULL,
        description TEXT NOT NULL,
        target_url TEXT NOT NULL
      );" in
  (* Optimize database query for `GetForDateRange`,
     `GetHighestRankedPlacementsForDateRange`, and `PurgeExpired`. *)
  let mojom_transaction :=
    CreateTableIndex mojom_transaction "ad_history" ["created_at"] in
  (* Optimize database query for `GetHighestRankedPlacementsForDateRange`. *)
  let mojom_transaction :=
    CreateTableIndex mojom_transaction "ad_history" ["confirmation_type"] in
  (* Optimize database query for `GetHighestRankedPlacementsForDateRange`. *)
  let mojom_transaction :=
    CreateTableIndex mojom_transaction "ad_history" ["placement_id"] in
  (* Optimize database query for `GetForCreativeInstanceId`. *)
  CreateTableIndex mojom_transaction "ad_history" ["creative_instance_id"].

Definition Create (this : AdHistory) (mojom_transaction : DBTransactionInfo)
  : DBTransactionInfo :=
  let mojom_transaction := ExecuteSql mojom_transaction "
      CREATE TABLE ad_history (
        id INTEGER PRIMARY KEY AUTOINCREMENT NOT NULL,
        created_at TIMESTAMP NOT NULL,
        type TEXT NOT NULL,
        confirmation_type TEXT NOT NULL,
        placement_id TEXT NOT NULL,
        creative_instance_id TEXT NOT NULL,
        creative_set_id TEXT NOT NULL,
        campaign_id TEXT NOT NULL,
        advertiser_id TEXT NOT NULL,
        segment TEXT NOT NULL,
        title TEXT NOT NULL,
        description TEXT NOT NULL,
        target_url TEXT NOT NULL
      );" in
  let mojom_transaction :=
    CreateTableIndex mojom_transaction (GetTableName this) ["created_at"] in
  let mojom_transaction :=
    CreateTableIndex mojom_transaction (GetTableName this)
      ["confirmation_type"] in
  let mojom_transaction :=
    CreateTableIndex mojom_transaction (GetTableName this) ["placement_id"] in
  CreateTableIndex mojom_transaction (GetTableName this)
    ["creative_instance_id"].

(** [switch (to_version) { case 42: MigrateToV42(...); break; }] *)
Definition Migrate (mojom_transaction : DBTransactionInfo) (to_version : Z)
  : DBTransactionInfo :=
  if to_version =? 42 then MigrateToV42 mojom_transaction
  else mojom_transaction.
End Schema.

(** ** Notions used to state further properties *)

(** The declared type of a column value. *)
Definition column_type_of (v : DBColumnValueUnion) : DBBindColumnType :=
  match v with
  | Int64Value _ => kInt64
  | StringValue _ => kString
  end.

(** The number of value tuples an insert statement announces in its text. *)
Definition statement_row_count (s : DBStatementInfo) : nat :=
  match sql s with
  | Some (SqlInsert _ values) => placeholder_rows values
  | _ => 0%nat
  end.

(** The column values a statement binds, in binding order. *)
Definition bound_values (s : DBStatementInfo) : list DBColumnValueUnion :=
  map value_union (bind_columns s).

(** An engine that holds [table] and answers a transaction of one statement
    with the rows the statement selects from it ([selected_rows], projected
    by [select_columns]); it reports failure for anything else. *)
Definition table_engine (table : Table) (mojom_transaction : DBTransactionInfo)
  : DBStatementResultInfoPtr :=
  match statements mojom_transaction with
  | [mojom_statement] =>
      match sql mojom_statement with
      | Some q =>
          match selected_rows q table with
          | Some rows =>
              Some (mkDBStatementResultInfo kSuccess
                      (Some (map select_columns rows)))
          | None => Some (mkDBStatementResultInfo kFailed None)
          end
      | None => Some (mkDBStatementResultInfo kFailed None)
      end
  | _ => Some (mkDBStatementResultInfo kFailed None)
  end.

(* ===================================================================== *)
(** * Sample data                                                         *)
(* ===================================================================== *)

(** A sample of ad types and confirmation types, named after section 3 of
    the spec and the literals of the ranking query, and URLs as plain
    strings. *)
Inductive SampleAdType : Type :=
| AdUndefined | AdDisplay | AdSearch | AdNewTab | AdNotification.

Inductive SampleConfirmationType : Type :=
| ConfirmationUndefined | Served | Viewed | Clicked | Dismissed | Landed.

#[export] Instance SampleAdTypeStrings : EnumStrings SampleAdType.
Proof.
  refine {|
    kUndefined := AdUndefined;
    is_defined := fun e => match e with AdUndefined => false | _ => true end;
    ToString := fun e =>
      match e with
      | AdUndefined => ""
      | AdDisplay => "display"
      | AdSearch => "search"
      | AdNewTab => "new-tab"
      | AdNotification => "notification"
      end;
    FromString := fun s =>
      if String.eqb s "display" then AdDisplay
      else if String.eqb s "search" then AdSearch
      else if String.eqb s "new-tab" then AdNewTab
      else if String.eqb s "notification" then AdNotification
      else AdUndefined
  |}.
  - intros []; simpl; split; congruence.
  - intros []; simpl; congruence.
Defined.

#[export] Instance SampleConfirmationTypeStrings
  : EnumStrings SampleConfirmationType.
Proof.
  refine {|
    kUndefined := ConfirmationUndefined;
    is_defined := fun e =>
      match e with ConfirmationUndefined => false | _ => true end;
    ToString := fun e =>
      match e with
      | ConfirmationUndefined => ""
      | Served => "served"
      | Viewed => "view"
      | Clicked => "click"
      | Dismissed => "dismiss"
      | Landed => "landed"
      end;
    FromString := fun s =>
      if String.eqb s "served" then Served
      else if String.eqb s "view" then Viewed
      else if String.eqb s "click" then Clicked
      else if String.eqb s "dismiss" then Dismissed
      else if String.eqb s "landed" then Landed
      else ConfirmationUndefined
  |}.
  - intros []; simpl; split; congruence.
  - intros []; simpl; congruence.
Defined.

#[export] Instance SampleUrl : Url string.
Proof.
  refine {|
    GURL := fun s => s;
    spec := fun u => u;
    is_valid := fun u => String.prefix "https://" u
  |}.
  intros u _. reflexivity.
Defined.

Definition SampleItem : Type :=
  @AdHistoryItemInfo SampleAdType SampleConfirmationType string.

Definition sample_item : SampleItem :=
  mkAdHistoryItemInfo (mkTime 13350000000000000) AdNotification Clicked
    "placement-1" "instance-1" "set-1" "campaign-1" "advertiser-1"
    "technology" "Title" "Description" "https://brave.com/".

(** An item with an empty [placement_id]. *)
Definition invalid_item : SampleItem :=
  mkAdHistoryItemInfo (mkTime 13350000000000000) AdNotification Viewed
    "" "instance-2" "set-2" "campaign-2" "advertiser-2"
    "technology" "Title" "Description" "https://brave.com/".

Definition sample_row (id created : Z) (confirmation placement : string)
  : TableRow :=
  mkTableRow id created "notification" confirmation placement "instance"
    "set" "campaign" "advertiser" "technology" "Title" "Description"
    "https://brave.com/".

(** Two placements: the first was viewed and then clicked, the second only
    served. *)
Definition sample_table : Table :=
  [ sample_row 1 100 "view" "p1";
    sample_row 2 200 "click" "p1";
    sample_row 3 300 "served" "p2" ].

(** An engine that always answers with one given statement result. *)
Definition constant_engine (r : DBStatementResultInfoPtr)
  : DBTransactionInfo -> DBStatementResultInfoPtr :=
  fun _ => r.

(** Candidates are written as (name, priority) pairs. *)
Definition candidate_priority (c : string * Z) : Z := snd c.

(** Priorities [0, 0, 2, 2, 1]. *)
Definition sample_candidates : list (string * Z) :=
  [("a", 0); ("b", 0); ("c", 2); ("d", 2); ("e", 1)].

(** A candidate with a negative priority next to one with priority 1. *)
Definition negative_candidates : list (string * Z) :=
  [("p", 1); ("n", -1)].

(* ===================================================================== *)
(** * Part III: properties                                                *)
(* ===================================================================== *)

Unset Implicit Arguments.

(** ** Facts about [base::flat_map] *)

Section FlatMapFacts.
Variable V : Type.
Implicit Types (m : FlatMap.t V) (k : Z).

Lemma FlatMap_sorted_tail k v m :
  FlatMap.sorted ((k, v) :: m) -> FlatMap.sorted m.
Proof. unfold FlatMap.sorted; simpl; intros Hs; now inversion Hs. Qed.

Lemma FlatMap_sorted_head_lt k v m k' :
  FlatMap.sorted ((k, v) :: m) -> In k' (FlatMap.keys m) -> k < k'.
Proof.
  unfold FlatMap.sorted; simpl; intros Hs Hin.
  inversion Hs as [|? ? _ Hall]; subst.
  rewrite Forall_forall in Hall. now apply Hall.
Qed.

Lemma FlatMap_find_not_in k m :
  ~ In k (FlatMap.keys m) -> FlatMap.find k m = None.
Proof.
  induction m as [|[k' v] m IH]; simpl; intros Hn; [reflexivity|].
  destruct (Z.eqb_spec k k') as [->|Hne].
  - exfalso; apply Hn; now left.
  - apply IH; intros Hin; apply Hn; now right.
Qed.

Lemma FlatMap_find_in k m :
  In k (FlatMap.keys m) -> exists v, FlatMap.find k m = Some v.
Proof.
  induction m as [|[k' v] m IH]; simpl; intros Hin; [contradiction|].
  destruct (Z.eqb_spec k k') as [->|Hne]; [now exists v|].
  destruct Hin as [Heq|Hin]; [congruence|now apply IH].
Qed.

Lemma FlatMap_keys_update k d f m k' :
  In k' (FlatMap.keys (FlatMap.update k d f m)) <->
  k' = k \/ In k' (FlatMap.keys m).
Proof.
  induction m as [|[k0 v0] m IH]; simpl.
  - intuition.
  - destruct (Z.ltb_spec k k0); simpl; [intuition|].
    destruct (Z.eqb_spec k k0) as [->|Hne]; simpl; [intuition|].
    rewrite IH. intuition.
Qed.

Lemma FlatMap_update_sorted k d f m :
  FlatMap.sorted m -> FlatMap.sorted (FlatMap.update k d f m).
Proof.
  induction m as [|[k0 v0] m IH]; intros Hs.
  - simpl. unfold FlatMap.sorted; simpl. repeat constructor.
  - simpl. destruct (Z.ltb_spec k k0) as [Hlt|Hge].
    + unfold FlatMap.sorted in *; simpl in *.
      constructor; [exact Hs|].
      constructor; [exact Hlt|].
      inversion Hs as [|? ? _ Hall]; subst.
      eapply Forall_impl; [|exact Hall]. simpl; intros; lia.
    + destruct (Z.eqb_spec k k0) as [->|Hne]; [exact Hs|].
      pose proof (IH (FlatMap_sorted_tail _ _ _ Hs)) as IH'.
      unfold FlatMap.sorted in *; simpl in *.
      constructor; [exact IH'|].
      apply Forall_forall; intros k' Hin.
      apply (FlatMap_keys_update k d f m k') in Hin.
      destruct Hin as [->|Hin]; [lia|].
      inversion Hs as [|? ? _ Hall]; subst.
      rewrite Forall_forall in Hall. now apply Hall.
Qed.

Lemma FlatMap_at_update k d f m k' :
  FlatMap.sorted m ->
  FlatMap.value_at d k' (FlatMap.update k d f m) =
  if k' =? k then f (FlatMap.value_at d k m) else FlatMap.value_at d k' m.
Proof.
  unfold FlatMap.value_at.
  induction m as [|[k0 v0] m IH]; intros Hs; simpl.
  - destruct (Z.eqb_spec k' k); reflexivity.
  - destruct (Z.ltb_spec k k0) as [Hlt|Hge]; simpl.
    + destruct (Z.eqb_spec k k0) as [->|_]; [lia|].
      rewrite (FlatMap_find_not_in k m).
      * destruct (Z.eqb_spec k' k); reflexivity.
      * intros Hin. pose proof (FlatMap_sorted_head_lt _ _ _ _ Hs Hin). lia.
    + destruct (Z.eqb_spec k k0) as [->|Hne]; simpl.
      * destruct (Z.eqb_spec k' k0); reflexivity.
      * destruct (Z.eqb_spec k' k0) as [->|Hne'].
        -- destruct (Z.eqb_spec k0 k); [congruence|reflexivity].
        -- apply IH. exact (FlatMap_sorted_tail _ _ _ Hs).
Qed.

Lemma FlatMap_cbegin_least k v m :
  FlatMap.sorted m -> FlatMap.cbegin m = Some (k, v) ->
  FlatMap.find k m = Some v /\
  forall k', In k' (FlatMap.keys m) -> k <= k'.
Proof.
  destruct m as [|[k0 v0] m]; simpl; intros Hs Hc; [discriminate|].
  injection Hc as -> ->. rewrite Z.eqb_refl. split; [reflexivity|].
  intros k' [<-|Hin]; [lia|].
  pose proof (FlatMap_sorted_head_lt _ _ _ _ Hs Hin). lia.
Qed.
End FlatMapFacts.


(** ** Facts about the priority buckets *)

Section PriorityFacts.
Variable CreativeAd : Type.
Variable priority : CreativeAd -> Z.

Local Abbreviation buckets_of := (SortCreativeAdsIntoBucketsByPriority priority).
Local Abbreviation bucket_at := (FlatMap.value_at (V := list CreativeAd) []).

Lemma with_priority_app k (l1 l2 : list CreativeAd) :
  with_priority priority k (l1 ++ l2) =
  with_priority priority k l1 ++ with_priority priority k l2.
Proof. unfold with_priority. apply filter_app. Qed.

Lemma with_priority_In k (l : list CreativeAd) c :
  In c (with_priority priority k l) <-> In c l /\ priority c = k.
Proof.
  unfold with_priority. rewrite filter_In.
  destruct (Z.eqb_spec (priority c) k); intuition congruence.
Qed.

(** The loop invariant of [SortCreativeAdsIntoBucketsByPriority], from any
    sorted map [m]: the map stays sorted, the bucket under [k] grows by the
    non-zero-priority candidates with priority [k] in input order, and the
    keys grow by the non-zero priorities seen. *)
Lemma bucket_loop_invariant (l : list CreativeAd) :
  forall m, FlatMap.sorted m ->
    let m' := fold_left (bucket_step priority) l m in
    FlatMap.sorted m' /\
    (forall k, k <> 0 ->
       bucket_at k m' = bucket_at k m ++ with_priority priority k l) /\
    (forall k, bucket_at k m = [] -> k = 0 -> bucket_at k m' = []) /\
    (forall k, In k (FlatMap.keys m') <->
       In k (FlatMap.keys m) \/
       (k <> 0 /\ exists c, In c l /\ priority c = k)).
Proof.
  induction l as [|c l IH]; intros m Hs; simpl.
  - repeat split; auto.
    + intros k _. now rewrite app_nil_r.
    + intros [H|[_ [c [[] _]]]]; exact H.
  - unfold bucket_step at 2 4 6 8.
    destruct (Z.eqb_spec (priority c) 0) as [Hz|Hnz].
    + destruct (IH m Hs) as (Hs' & Hat & Hzero & Hkeys).
      repeat split; auto.
      * intros k Hk. rewrite (Hat k Hk). f_equal.
        unfold with_priority; simpl.
        destruct (Z.eqb_spec (priority c) k); [congruence|reflexivity].
      * intros Hin. apply Hkeys in Hin.
        destruct Hin as [Hin|(Hk & c' & Hc' & Hp)]; [now left|].
        right; split; [exact Hk|]. exists c'; split; [now right|exact Hp].
      * intros [Hin|(Hk & c' & [<-|Hc'] & Hp)]; apply Hkeys.
        -- now left.
        -- congruence.
        -- right; split; [exact Hk|]. now exists c'.
    + set (m1 := FlatMap.update (priority c) [] (push_back c) m).
      assert (Hs1 : FlatMap.sorted m1)
        by (apply FlatMap_update_sorted; exact Hs).
      destruct (IH m1 Hs1) as (Hs' & Hat & Hzero & Hkeys).
      repeat split; auto.
      * intros k Hk. rewrite (Hat k Hk). unfold m1.
        rewrite FlatMap_at_update by exact Hs.
        unfold with_priority; simpl.
        rewrite (Z.eqb_sym (priority c) k).
        destruct (Z.eqb_spec k (priority c)) as [->|Hne].
        -- unfold push_back. now rewrite <- app_assoc.
        -- reflexivity.
      * intros k Hnil Hk. apply Hzero; [|exact Hk]. unfold m1.
        rewrite FlatMap_at_update by exact Hs.
        destruct (Z.eqb_spec k (priority c)); [congruence|exact Hnil].
      * intros Hin. apply Hkeys in Hin. unfold m1 in Hin.
        rewrite FlatMap_keys_update in Hin.
        destruct Hin as [[->|Hin]|(Hk & c' & Hc' & Hp)].
        -- right; split; [exact Hnz|]. exists c; split; [now left|reflexivity].
        -- now left.
        -- right; split; [exact Hk|]. exists c'; split; [now right|exact Hp].
      * intros Hin. apply Hkeys. unfold m1. rewrite FlatMap_keys_update.
        destruct Hin as [Hin|(Hk & c' & [<-|Hc'] & Hp)].
        -- left; now right.
        -- left; left; now symmetry.
        -- right; split; [exact Hk|]. now exists c'.
Qed.

Lemma buckets_sorted (l : list CreativeAd) : FlatMap.sorted (buckets_of l).
Proof.
  apply (bucket_loop_invariant l []). unfold FlatMap.sorted; simpl. constructor.
Qed.

Lemma buckets_at (l : list CreativeAd) k :
  k <> 0 -> bucket_at k (buckets_of l) = with_priority priority k l.
Proof.
  intros Hk.
  assert (Hs : FlatMap.sorted (@nil (Z * list CreativeAd)))
    by (unfold FlatMap.sorted; simpl; constructor).
  destruct (bucket_loop_invariant l [] Hs) as (_ & Hat & _).
  exact (Hat k Hk).
Qed.

Lemma buckets_keys (l : list CreativeAd) k :
  In k (FlatMap.keys (buckets_of l)) <->
  k <> 0 /\ exists c, In c l /\ priority c = k.
Proof.
  assert (Hs : FlatMap.sorted (@nil (Z * list CreativeAd)))
    by (unfold FlatMap.sorted; simpl; constructor).
  destruct (bucket_loop_invariant l [] Hs) as (_ & _ & _ & Hkeys).
  rewrite (Hkeys k). simpl. intuition.
Qed.

(** What [HighestPriorityCreativeAds] returns, in terms of its input alone:
    nothing when every priority is 0, and otherwise the first bucket, which
    holds the candidates carrying the numerically smallest non-zero priority,
    in input order. *)
Lemma HighestPriorityCreativeAds_cases (l : list CreativeAd) :
  ((forall c, In c l -> priority c = 0) /\
   HighestPriorityCreativeAds priority l = [])
  \/
  (exists k, k <> 0 /\
     (exists c, In c l /\ priority c = k) /\
     (forall c, In c l -> priority c <> 0 -> k <= priority c) /\
     FlatMap.cbegin (buckets_of l) = Some (k, with_priority priority k l) /\
     HighestPriorityCreativeAds priority l = with_priority priority k l).
Proof.
  unfold HighestPriorityCreativeAds.
  pose proof (buckets_sorted l) as Hs.
  pose proof (buckets_keys l) as Hkeys.
  pose proof (buckets_at l) as Hat.
  destruct (buckets_of l) as [|[k v] m] eqn:Hb; simpl.
  - left. split; [|reflexivity].
    intros c Hc. destruct (Z.eq_dec (priority c) 0) as [|Hnz]; [assumption|].
    exfalso. apply (proj2 (Hkeys (priority c))).
    split; [exact Hnz|]. now exists c.
  - right. exists k.
    destruct (FlatMap_cbegin_least _ k v _ Hs eq_refl) as [Hfind Hleast].
    destruct (proj1 (Hkeys k)) as [Hk Hex]; [now left|].
    assert (Hv : v = with_priority priority k l).
    { rewrite <- (Hat k Hk). unfold FlatMap.value_at. now rewrite Hfind. }
    subst v. repeat split; auto.
    intros c Hc Hnz. apply Hleast. apply Hkeys. split; [exact Hnz|].
    now exists c.
Qed.

(** A candidate with a non-zero priority sits in the bucket keyed by its
    priority. *)
Lemma buckets_find (l : list CreativeAd) c :
  In c l -> priority c <> 0 ->
  FlatMap.find (priority c) (buckets_of l) =
    Some (with_priority priority (priority c) l) /\
  In c (with_priority priority (priority c) l).
Proof.
  intros Hc Hnz.
  assert (Hin : In (priority c) (FlatMap.keys (buckets_of l)))
    by (apply buckets_keys; split; [exact Hnz|now exists c]).
  destruct (FlatMap_find_in _ _ _ Hin) as [v Hv].
  pose proof (buckets_at l (priority c) Hnz) as Hat.
  unfold FlatMap.value_at in Hat. rewrite Hv in Hat. subst v.
  split; [exact Hv|]. apply with_priority_In. now split.
Qed.
End PriorityFacts.


(** ** Claims about the priority buckets *)

(** C2 (as stated) fails: with priorities [1, -1] the smallest positive
    priority present is 1, yet [HighestPriorityCreativeAds] returns the
    candidate with priority -1 and not the one with priority 1. *)
Lemma HighestPriorityCreativeAds_not_smallest_positive :
  (forall c, In c negative_candidates -> 0 < candidate_priority c ->
             1 <= candidate_priority c) /\
  with_priority candidate_priority 1 negative_candidates = [("p", 1)] /\
  HighestPriorityCreativeAds candidate_priority negative_candidates
    = [("n", -1)] /\
  HighestPriorityCreativeAds candidate_priority negative_candidates
    <> with_priority candidate_priority 1 negative_candidates.
Proof.
  split; [intros c _ Hpos; lia|].
  repeat split; try reflexivity. vm_compute. discriminate.
Qed.

(** C2 (amended): for every candidate list, [HighestPriorityCreativeAds]
    returns exactly the candidates whose priority equals the smallest
    non-zero priority present, in input order, and no candidate with
    priority 0; it returns the empty list when no candidate has a non-zero
    priority.  When no candidate has a negative priority this is the
    smallest positive priority, and the result is empty when no candidate
    has a positive priority.  For priorities [0, 0, 2, 2, 1] it returns the
    bucket at priority 1 only. *)
Theorem HighestPriorityCreativeAds_smallest_nonzero :
  forall (CreativeAd : Type) (priority : CreativeAd -> Z)
         (l : list CreativeAd),
    ((forall c, In c l -> priority c = 0) ->
       HighestPriorityCreativeAds priority l = []) /\
    (forall k, k <> 0 ->
       (exists c, In c l /\ priority c = k) ->
       (forall c, In c l -> priority c <> 0 -> k <= priority c) ->
       HighestPriorityCreativeAds priority l = with_priority priority k l) /\
    (forall c, In c (HighestPriorityCreativeAds priority l) ->
       priority c <> 0) /\
    ((forall c, In c l -> 0 <= priority c) ->
       ((forall c, In c l -> priority c <= 0) ->
          HighestPriorityCreativeAds priority l = []) /\
       (forall k, 0 < k ->
          (exists c, In c l /\ priority c = k) ->
          (forall c, In c l -> 0 < priority c -> k <= priority c) ->
          HighestPriorityCreativeAds priority l = with_priority priority k l))
    /\
    HighestPriorityCreativeAds candidate_priority sample_candidates
      = [("e", 1)].
Proof.
  intros CreativeAd priority l.
  assert (Hzero : (forall c, In c l -> priority c = 0) ->
                  HighestPriorityCreativeAds priority l = []).
  { intros Hall.
    destruct (HighestPriorityCreativeAds_cases _ priority l)
      as [[_ Hnil]|(k & Hk & (c & Hc & Hp) & _)]; [exact Hnil|].
    specialize (Hall c Hc). congruence. }
  assert (Hmin : forall k, k <> 0 ->
            (exists c, In c l /\ priority c = k) ->
            (forall c, In c l -> priority c <> 0 -> k <= priority c) ->
            HighestPriorityCreativeAds priority l = with_priority priority k l).
  { intros k Hk (c & Hc & Hp) Hleast.
    destruct (HighestPriorityCreativeAds_cases _ priority l)
      as [[Hall _]|(k' & Hk' & (c' & Hc' & Hp') & Hleast' & _ & Heq)].
    - specialize (Hall c Hc). congruence.
    - assert (k' <= k) by (rewrite <- Hp; apply Hleast'; [exact Hc|congruence]).
      assert (k <= k') by (rewrite <- Hp'; apply Hleast; [exact Hc'|congruence]).
      replace k with k' by lia. exact Heq. }
  split; [exact Hzero|]. split; [exact Hmin|]. split; [|split].
  - intros c Hc.
    destruct (HighestPriorityCreativeAds_cases _ priority l)
      as [[_ Hnil]|(k & Hk & _ & _ & _ & Heq)].
    + rewrite Hnil in Hc. contradiction.
    + rewrite Heq in Hc. apply with_priority_In in Hc. destruct Hc; congruence.
  - intros Hnonneg. split.
    + intros Hnonpos. apply Hzero. intros c Hc.
      specialize (Hnonneg c Hc). specialize (Hnonpos c Hc). lia.
    + intros k Hk Hex Hleast. apply Hmin; [lia|exact Hex|].
      intros c Hc Hnz. apply Hleast; [exact Hc|].
      specialize (Hnonneg c Hc). lia.
  - reflexivity.
Qed.

(** Running C2 (amended) on priorities [0, 0, 2, 2, 1] with [k = 1]. *)
Lemma HighestPriorityCreativeAds_smallest_nonzero_witness :
  HighestPriorityCreativeAds candidate_priority sample_candidates
    = with_priority candidate_priority 1 sample_candidates.
Proof.
  apply (proj1 (proj2 (HighestPriorityCreativeAds_smallest_nonzero
                         (string * Z) candidate_priority sample_candidates))).
  - discriminate.
  - exists ("e", 1). split; [simpl; tauto|reflexivity].
  - intros c Hc Hnz. simpl in Hc.
    destruct Hc as [<-|[<-|[<-|[<-|[<-|[]]]]]];
      unfold candidate_priority in *; simpl in *; lia.
Defined.

(** C9: a candidate with a negative priority is not excluded by the
    bucketer: it is placed in the bucket keyed by its priority;
    [HighestPriorityCreativeAds] returns the first bucket, whose key is the
    numerically smallest priority, a negative one; every candidate it
    returns has a negative priority (none has a positive one) and the
    result is not empty. *)
Theorem negative_priority_takes_precedence :
  forall (CreativeAd : Type) (priority : CreativeAd -> Z)
         (l : list CreativeAd) (c : CreativeAd),
    In c l -> priority c < 0 ->
    (exists ads,
       FlatMap.find (priority c)
         (SortCreativeAdsIntoBucketsByPriority priority l) = Some ads /\
       In c ads) /\
    (exists k, k < 0 /\
       (forall c', In c' l -> priority c' <> 0 -> k <= priority c') /\
       FlatMap.cbegin (SortCreativeAdsIntoBucketsByPriority priority l)
         = Some (k, with_priority priority k l) /\
       HighestPriorityCreativeAds priority l = with_priority priority k l) /\
    (forall c', In c' (HighestPriorityCreativeAds priority l) ->
       priority c' < 0) /\
    HighestPriorityCreativeAds priority l <> [].
Proof.
  intros CreativeAd priority l c Hc Hneg.
  assert (Hnz : priority c <> 0) by lia.
  destruct (buckets_find _ priority l c Hc Hnz) as [Hfind Hin].
  destruct (HighestPriorityCreativeAds_cases _ priority l)
    as [[Hall _]|(k & Hk & (c0 & Hc0 & Hp0) & Hleast & Hbegin & Heq)].
  { specialize (Hall c Hc). lia. }
  assert (Hkneg : k < 0) by (specialize (Hleast c Hc Hnz); lia).
  split; [eexists; split; [exact Hfind|exact Hin]|].
  split; [exists k; repeat split; auto|].
  split.
  - intros c' Hc'. rewrite Heq in Hc'. apply with_priority_In in Hc'.
    destruct Hc' as [_ ->]. exact Hkneg.
  - rewrite Heq. intros Hnil.
    assert (Hin0 : In c0 (with_priority priority k l))
      by (apply with_priority_In; now split).
    rewrite Hnil in Hin0. contradiction.
Qed.

(** Running C9 on priorities [1, -1]. *)
Lemma negative_priority_takes_precedence_witness :
  candidate_priority ("n", -1) < 0 /\
  HighestPriorityCreativeAds candidate_priority negative_candidates <> [].
Proof.
  split; [reflexivity|].
  apply (negative_priority_takes_precedence
           (string * Z) candidate_priority negative_candidates ("n", -1)).
  - simpl; tauto.
  - reflexivity.
Defined.

(** ** Facts about the statements *)

Lemma insert_desc_perm r l : Permutation (insert_desc r l) (r :: l).
Proof.
  induction l as [|x l IH]; simpl; [reflexivity|].
  destruct (row_created_at x <=? row_created_at r); [reflexivity|].
  rewrite IH. apply perm_swap.
Qed.

Lemma order_by_created_at_desc_perm l :
  Permutation (order_by_created_at_desc l) l.
Proof.
  induction l as [|x l IH]; simpl; [reflexivity|].
  rewrite insert_desc_perm. now constructor.
Qed.

Lemma insert_desc_sorted r l :
  StronglySorted newest_first l -> StronglySorted newest_first (insert_desc r l).
Proof.
  induction l as [|x l IH]; intros Hs; simpl.
  - repeat constructor.
  - inversion Hs as [|? ? Hs' Hall]; subst.
    destruct (Z.leb_spec (row_created_at x) (row_created_at r)) as [Hle|Hgt].
    + constructor; [exact Hs|].
      constructor; [exact Hle|].
      eapply Forall_impl; [|exact Hall].
      unfold newest_first; simpl; intros; lia.
    + constructor; [now apply IH|].
      apply Forall_forall. intros y Hy.
      apply (Permutation_in _ (insert_desc_perm r l)) in Hy.
      destruct Hy as [<-|Hy].
      * unfold newest_first; lia.
      * rewrite Forall_forall in Hall. now apply Hall.
Qed.

Lemma order_by_created_at_desc_sorted l :
  StronglySorted newest_first (order_by_created_at_desc l).
Proof.
  induction l as [|x l IH]; simpl; [constructor|].
  now apply insert_desc_sorted.
Qed.

Lemma sql_min_None l : sql_min l = None <-> l = [].
Proof.
  destruct l as [|x l]; simpl; [tauto|].
  destruct (sql_min l); split; discriminate.
Qed.

Lemma sql_min_Some l m :
  sql_min l = Some m <-> In m l /\ forall x, In x l -> m <= x.
Proof.
  revert m. induction l as [|x l IH]; intros m; simpl.
  - split; [discriminate|tauto].
  - destruct (sql_min l) as [m'|] eqn:Hm.
    + destruct (proj1 (IH m') eq_refl) as [Hin Hle]. split.
      * intros [= <-]. split.
        -- destruct (Z.min_spec x m') as [[_ ->]|[_ ->]]; auto.
        -- intros y [<-|Hy]; [lia|]. specialize (Hle y Hy). lia.
      * intros [[<-|Hin'] Hle']; f_equal.
        -- specialize (Hle' m' (or_intror Hin)). lia.
        -- pose proof (Hle' x (or_introl eq_refl)).
           specialize (Hle m Hin'). specialize (Hle' m' (or_intror Hin)). lia.
    + apply sql_min_None in Hm. subst l. split.
      * intros [= <-]. split; [now left|]. intros y [<-|[]]; lia.
      * intros [[<-|[]] _]. reflexivity.
Qed.

Lemma between_spec lo hi x : between lo hi x = true <-> lo <= x <= hi.
Proof. unfold between. rewrite andb_true_iff, !Z.leb_le. tauto. Qed.

Lemma confirmation_priority_cases s :
  (s = "click" /\ confirmation_priority s = 1) \/
  (s = "dismiss" /\ confirmation_priority s = 2) \/
  (s = "view" /\ confirmation_priority s = 3) \/
  (s <> "click" /\ s <> "dismiss" /\ s <> "view" /\
   confirmation_priority s = 0).
Proof.
  unfold confirmation_priority.
  destruct (String.eqb_spec s "click") as [->|H1]; [now left|].
  destruct (String.eqb_spec s "dismiss") as [->|H2]; [now right; left|].
  destruct (String.eqb_spec s "view") as [->|H3]; [now right; right; left|].
  right; right; right. auto.
Qed.

Lemma In_PrioritizedAdHistory table from_time to_time r p :
  In (r, p) (PrioritizedAdHistory table from_time to_time) <->
  In r table /\ from_time <= row_created_at r <= to_time /\ p = row_priority r.
Proof.
  unfold PrioritizedAdHistory. rewrite in_map_iff. split.
  - intros (r' & [= <- <-] & Hin). apply filter_In in Hin.
    destruct Hin as [Hin Hb]. apply between_spec in Hb. auto.
  - intros (Hin & Hb & ->). exists r. split; [reflexivity|].
    apply filter_In. split; [exact Hin|]. now apply between_spec.
Qed.

Lemma min_positive_priority_Some table from_time to_time placement m :
  min_positive_priority (PrioritizedAdHistory table from_time to_time)
    placement = Some m <->
  (exists r, In r table /\ from_time <= row_created_at r <= to_time /\
             row_placement_id r = placement /\ row_priority r = m /\ 0 < m) /\
  (forall r, In r table -> from_time <= row_created_at r <= to_time ->
             row_placement_id r = placement -> 0 < row_priority r ->
             m <= row_priority r).
Proof.
  unfold min_positive_priority. rewrite sql_min_Some.
  set (P := PrioritizedAdHistory table from_time to_time).
  assert (Hmem : forall x,
    In x (map snd (filter (fun other =>
            String.eqb (row_placement_id (fst other)) placement
            && (0 <? snd other)) P)) <->
    exists r, In r table /\ from_time <= row_created_at r <= to_time /\
              row_placement_id r = placement /\ row_priority r = x /\ 0 < x).
  { intros x. rewrite in_map_iff. split.
    - intros ([r p] & Hx & Hin). simpl in Hx. subst p.
      apply filter_In in Hin. destruct Hin as [Hin Hb]. simpl in Hb.
      apply andb_true_iff in Hb. destruct Hb as [Hpl Hpos].
      apply String.eqb_eq in Hpl. apply Z.ltb_lt in Hpos.
      apply In_PrioritizedAdHistory in Hin. destruct Hin as (Hin & Hr & ->).
      exists r. auto.
    - intros (r & Hin & Hr & Hpl & Hp & Hpos). exists (r, x). split; [reflexivity|].
      apply filter_In. split.
      + apply In_PrioritizedAdHistory. auto.
      + simpl. apply andb_true_iff. split.
        * now apply String.eqb_eq.
        * now apply Z.ltb_lt. }
  split.
  - intros [Hin Hle]. split; [now apply Hmem|].
    intros r Hr Hb Hpl Hpos. apply Hle. apply Hmem. exists r. auto.
  - intros [Hex Hle]. split; [now apply Hmem|].
    intros x Hx. apply Hmem in Hx.
    destruct Hx as (r & Hin & Hr & Hpl & <- & Hpos). now apply Hle.
Qed.

Lemma In_FilteredAdHistory table from_time to_time r :
  In r (map fst (FilteredAdHistory
                   (PrioritizedAdHistory table from_time to_time))) <->
  In r table /\ from_time <= row_created_at r <= to_time /\
  0 < row_priority r /\
  (forall r', In r' table -> from_time <= row_created_at r' <= to_time ->
      row_placement_id r' = row_placement_id r -> 0 < row_priority r' ->
      row_priority r <= row_priority r').
Proof.
  rewrite in_map_iff. unfold FilteredAdHistory. split.
  - intros ([r0 p] & Hr0 & Hin). simpl in Hr0. subst r0.
    apply filter_In in Hin. destruct Hin as [Hin Hw]. simpl in Hw.
    apply In_PrioritizedAdHistory in Hin. destruct Hin as (Hin & Hb & ->).
    unfold where_equals in Hw.
    destruct (min_positive_priority _ _) as [m|] eqn:Hm; [|discriminate].
    apply Z.eqb_eq in Hw.
    apply min_positive_priority_Some in Hm.
    destruct Hm as [(r1 & _ & _ & _ & _ & Hpos) Hle].
    rewrite Hw. auto.
  - intros (Hin & Hb & Hpos & Hle). exists (r, row_priority r).
    split; [reflexivity|]. apply filter_In. split.
    + apply In_PrioritizedAdHistory. auto.
    + simpl. unfold where_equals.
      assert (Hm : min_positive_priority
                (PrioritizedAdHistory table from_time to_time)
                (row_placement_id r) = Some (row_priority r)).
      { apply min_positive_priority_Some. split; [|exact Hle].
        exists r. auto. }
      rewrite Hm. apply Z.eqb_refl.
Qed.

Lemma delete_expired_In cutoff table r :
  In r (delete_expired cutoff table) <->
  In r table /\ cutoff < row_created_at r.
Proof.
  unfold delete_expired. rewrite filter_In, negb_true_iff, Z.leb_gt. tauto.
Qed.

(** The ranking query on the sample table: the click wins placement [p1]
    over the view, and the placement that was only served yields no row. *)
Example selected_rows_sample_table :
  selected_rows (SqlSelectHighestRankedPlacements kTableName 0 1000)
    sample_table = Some [sample_row 2 200 "click" "p1"].
Proof. reflexivity. Qed.

(** ** Claims about the statements *)

Section StatementClaims.
Context {AdType ConfirmationType Gurl : Type}.
Context {AdTypeStrings : EnumStrings AdType}.
Context {ConfirmationTypeStrings : EnumStrings ConfirmationType}.
Context {GurlUrl : Url Gurl}.


End StatementClaims.

(** ** Facts about [SplitVector] *)

Section SplitVectorFacts.
Variable A : Type.
Implicit Types (l : list A) (n : nat).

Lemma SplitVector_cons x l n :
  SplitVector (x :: l) (S n) =
  firstn (S n) (x :: l) :: SplitVector (skipn (S n) (x :: l)) (S n).
Proof. now rewrite SplitVector_equation_3. Qed.

Lemma SplitVector_step l n :
  l <> [] -> (0 < n)%nat ->
  SplitVector l n = firstn n l :: SplitVector (skipn n l) n.
Proof.
  intros Hl Hn. destruct l as [|x l]; [congruence|].
  destruct n as [|n]; [lia|]. apply SplitVector_cons.
Qed.

(** Induction along the batches: [l], then [skipn n l], and so on. *)
Lemma SplitVector_ind_batches n (P : list A -> Prop) :
  (0 < n)%nat ->
  P [] ->
  (forall l, l <> [] -> P (skipn n l) -> P l) ->
  forall l, P l.
Proof.
  intros Hn Hnil Hstep l.
  remember (List.length l) as k eqn:Hk. revert l Hk.
  induction k as [k IH] using lt_wf_ind. intros l Hk.
  destruct l as [|x l]; [exact Hnil|].
  apply Hstep; [discriminate|].
  apply (IH (List.length (skipn n (x :: l)))); [|reflexivity].
  rewrite List.length_skipn. subst k.
  change (List.length (x :: l)) with (S (List.length l)). lia.
Qed.

Lemma SplitVector_concat l n :
  (0 < n)%nat -> List.concat (SplitVector l n) = l.
Proof.
  intros Hn. pattern l. apply (SplitVector_ind_batches n); clear l;
    [exact Hn|reflexivity|]. intros l Hl IH.
  rewrite (SplitVector_step l n Hl Hn). simpl. rewrite IH.
  apply firstn_skipn.
Qed.

Lemma SplitVector_batches l n :
  (0 < n)%nat ->
  Forall (fun batch => batch <> [] /\ (List.length batch <= n)%nat)
         (SplitVector l n).
Proof.
  intros Hn. pattern l. apply (SplitVector_ind_batches n); clear l;
    [exact Hn|constructor|]. intros l Hl IH.
  rewrite (SplitVector_step l n Hl Hn). constructor; [|exact IH].
  split.
  - destruct l as [|x l]; [congruence|].
    destruct n as [|n]; [lia|]. discriminate.
  - rewrite List.length_firstn. lia.
Qed.


Lemma SplitVector_incl l n :
  (0 < n)%nat ->
  forall batch, In batch (SplitVector l n) -> incl batch l.
Proof.
  intros Hn batch Hin x Hx.
  rewrite <- (SplitVector_concat l n Hn). apply List.in_concat. now exists batch.
Qed.
End SplitVectorFacts.

(** ** Facts about binding, inserting and reading back *)

Lemma with_bindings_nil s : with_bindings s [] = s.
Proof. destruct s; unfold with_bindings; simpl. now rewrite app_nil_r. Qed.

Lemma with_bindings_app s b1 b2 :
  with_bindings (with_bindings s b1) b2 = with_bindings s (b1 ++ b2).
Proof. unfold with_bindings; simpl. now rewrite app_assoc. Qed.

Lemma BindColumnInt64_with_bindings s i v :
  BindColumnInt64 s i v =
  with_bindings s [mkDBBindColumnInfo i (Int64Value v)].
Proof. reflexivity. Qed.

Lemma BindColumnString_with_bindings s i v :
  BindColumnString s i v =
  with_bindings s [mkDBBindColumnInfo i (StringValue v)].
Proof. reflexivity. Qed.

Lemma bindings_from_app i v1 v2 :
  bindings_from i (v1 ++ v2) =
  bindings_from i v1 ++ bindings_from (i + Z.of_nat (List.length v1)) v2.
Proof.
  revert i. induction v1 as [|v v1 IH]; intros i; simpl.
  - now rewrite Z.add_0_r.
  - rewrite IH. do 3 f_equal. lia.
Qed.

Lemma bindings_from_values i v : map value_union (bindings_from i v) = v.
Proof.
  revert i. induction v as [|x v IH]; intros i; simpl; [reflexivity|].
  now rewrite IH.
Qed.

Section AdHistoryFacts.
Context {AdType ConfirmationType Gurl : Type}.
Context {AdTypeStrings : EnumStrings AdType}.
Context {ConfirmationTypeStrings : EnumStrings ConfirmationType}.
Context {GurlUrl : Url Gurl}.

Local Abbreviation Item := (@AdHistoryItemInfo AdType ConfirmationType Gurl).

Lemma Encode_length (item : Item) : List.length (Encode item) = 12%nat.
Proof. reflexivity. Qed.

Lemma bind_item_spec s i (item : Item) :
  bind_item s i item = with_bindings s (bindings_from i (Encode item)).
Proof.
  unfold bind_item. cbv zeta.
  rewrite !BindColumnString_with_bindings, BindColumnInt64_with_bindings.
  rewrite !with_bindings_app.
  cbn [app Encode bindings_from].
  replace (i + 1 + 1) with (i + 2) by lia.
  replace (i + 2 + 1) with (i + 3) by lia.
  replace (i + 3 + 1) with (i + 4) by lia.
  replace (i + 4 + 1) with (i + 5) by lia.
  replace (i + 5 + 1) with (i + 6) by lia.
  replace (i + 6 + 1) with (i + 7) by lia.
  replace (i + 7 + 1) with (i + 8) by lia.
  replace (i + 8 + 1) with (i + 9) by lia.
  replace (i + 9 + 1) with (i + 10) by lia.
  replace (i + 10 + 1) with (i + 11) by lia.
  reflexivity.
Qed.

(** The loop of [BindColumns] in closed form: the values of the valid items,
    in input order, at consecutive positions, and their number. *)
Lemma BindColumns_loop_spec (l : list Item) :
  forall s i n,
    BindColumns_loop s i n l =
    (with_bindings s
       (bindings_from i (List.concat (map Encode (filter IsValid l)))),
     (n + List.length (filter IsValid l))%nat).
Proof.
  induction l as [|item l IH]; intros s i n; cbn [BindColumns_loop filter].
  - cbn. now rewrite with_bindings_nil, Nat.add_0_r.
  - destruct (IsValid item) eqn:Hv; cbn [negb].
    + cbn [map List.concat List.length].
      rewrite IH, bind_item_spec, with_bindings_app.
      rewrite bindings_from_app, Encode_length.
      change (Z.of_nat 12) with 12.
      f_equal. lia.
    + apply IH.
Qed.


Lemma GetCallback_rows_filter rows :
  GetCallback_rows rows =
  filter IsValid (map (FromMojomRow (AdType := AdType)
                         (ConfirmationType := ConfirmationType)
                         (Gurl := Gurl)) rows).
Proof.
  induction rows as [|row rows IH]; simpl; [reflexivity|].
  destruct (IsValid (FromMojomRow row)); simpl; now rewrite IH.
Qed.


Lemma Insert_nonempty this tx (batch : list Item) :
  batch <> [] ->
  Insert this tx batch = Some (push_statement (insert_statement this batch) tx).
Proof.
  intros Hb. destruct batch as [|item batch]; [congruence|].
  unfold Insert, BuildInsertSql, BindColumns, insert_statement.
  destruct (BindColumns_loop _ _ _ _) as [s n]. reflexivity.
Qed.

Lemma Insert_batches_spec this (batches : list (list Item)) :
  Forall (fun batch => batch <> []) batches ->
  forall tx,
    Insert_batches this tx batches =
    Some (mkDBTransactionInfo
            (statements tx ++ map (insert_statement this) batches)).
Proof.
  induction 1 as [|batch batches Hb _ IH]; intros tx; simpl.
  - rewrite app_nil_r. now destruct tx.
  - rewrite (Insert_nonempty this tx batch Hb). rewrite IH.
    unfold push_statement; simpl. now rewrite <- app_assoc.
Qed.

(** [Save] on a non-empty list never trips a [CHECK]: it submits the
    transaction holding one insert statement per batch. *)
Lemma Save_nonempty this (l : list Item) :
  l <> [] -> (0 < batch_size_ this)%nat ->
  Save this l =
  RunTransaction
    (mkDBTransactionInfo
       (map (insert_statement this) (SplitVector l (batch_size_ this)))).
Proof.
  intros Hl Hn. destruct l as [|item l]; [congruence|].
  unfold Save.
  rewrite Insert_batches_spec; [reflexivity|].
  eapply Forall_impl; [|apply SplitVector_batches; exact Hn].
  simpl; tauto.
Qed.

(** The insert statement of a batch in closed form. *)
Lemma insert_statement_spec this (batch : list Item) :
  insert_statement this batch =
  mkDBStatementInfo kRun
    (Some (SqlInsert kTableName
             (mkPlaceholders 12 (List.length (filter IsValid batch)))))
    (bindings_from 0 (List.concat (map Encode (filter IsValid batch))))
    [].
Proof.
  unfold insert_statement. rewrite BindColumns_loop_spec. reflexivity.
Qed.

Lemma run_RunTransaction engine tx :
  run engine (RunTransaction tx) =
  ([tx], Some (IsTransactionSuccessful (engine tx))).
Proof. reflexivity. Qed.
End AdHistoryFacts.

Lemma filter_all_false {A : Type} (f : A -> bool) (l : list A) :
  (forall x, In x l -> f x = false) -> filter f l = [].
Proof.
  induction l as [|x l IH]; intros Hall; simpl; [reflexivity|].
  rewrite (Hall x (or_introl eq_refl)). apply IH.
  intros y Hy. apply Hall. now right.
Qed.

(** ** Claims about the table *)

Section AdHistoryClaims.
Context {AdType ConfirmationType Gurl : Type}.
Context {AdTypeStrings : EnumStrings AdType}.
Context {ConfirmationTypeStrings : EnumStrings ConfirmationType}.
Context {GurlUrl : Url Gurl}.

Local Abbreviation Item := (@AdHistoryItemInfo AdType ConfirmationType Gurl).
Local Abbreviation GetCallback' :=
  (GetCallback (AdType := AdType) (ConfirmationType := ConfirmationType)
     (Gurl := Gurl)).


(** C4: [Save] of the empty list runs its completion with success at once:
    no transaction is created or submitted and no statement is built. *)
Theorem Save_empty :
  forall (this : AdHistory),
    Save this (@nil Item) = Ret true /\
    forall engine, run engine (Save this (@nil Item)) = ([], Some true).
Proof. intros this. split; [reflexivity|]. intros engine. reflexivity. Qed.

(** C10: [Save] of a non-empty list of invalid records does not
    short-circuit: every batch still appends one insert statement, built
    with no bound value and with placeholders for zero rows, and the
    transaction is submitted to the engine. *)
Theorem Save_all_invalid :
  forall (this : AdHistory) (l : list Item),
    l <> [] -> (forall r, In r l -> IsValid r = false) ->
    (0 < batch_size_ this)%nat ->
    let batches := SplitVector l (batch_size_ this) in
    let empty_insert :=
      mkDBStatementInfo kRun
        (Some (SqlInsert kTableName (BuildBindColumnPlaceholders 12 0)))
        [] [] in
    let tx :=
      mkDBTransactionInfo (repeat empty_insert (List.length batches)) in
    Save this l = RunTransaction tx /\
    Save this l <> Ret true /\
    (1 <= List.length batches)%nat /\
    Forall (fun batch =>
              forall tx0, Insert this tx0 batch =
                          Some (push_statement empty_insert tx0))
           batches /\
    bind_columns empty_insert = [] /\
    (forall engine,
       run engine (Save this l) =
       ([tx], Some (IsTransactionSuccessful (engine tx)))).
Proof.
  intros this l Hl Hinv Hn batches empty_insert tx.
  assert (Hstmt : forall batch, In batch batches ->
            insert_statement this batch = empty_insert).
  { intros batch Hb. rewrite insert_statement_spec.
    assert (Hnone : filter IsValid batch = []).
    { apply filter_all_false. intros r Hr. apply Hinv.
      apply (SplitVector_incl _ l _ Hn batch Hb r Hr). }
    rewrite Hnone. reflexivity. }
  assert (Hmap : map (insert_statement this) batches
                 = repeat empty_insert (List.length batches)).
  { clear -Hstmt. induction batches as [|b bs IH]; simpl; [reflexivity|].
    rewrite (Hstmt b (or_introl eq_refl)), IH; [reflexivity|].
    intros batch Hb. apply Hstmt. now right. }
  assert (Hsave : Save this l = RunTransaction tx).
  { rewrite (Save_nonempty this l Hl Hn). unfold tx.
    fold batches. now rewrite Hmap. }
  split; [exact Hsave|].
  split; [rewrite Hsave; discriminate|].
  split.
  { unfold batches. rewrite (SplitVector_step _ l _ Hl Hn). simpl. lia. }
  split.
  { apply Forall_forall. intros batch Hb tx0.
    assert (Hne : batch <> []).
    { pose proof (SplitVector_batches _ l _ Hn) as Hall.
      rewrite Forall_forall in Hall. apply (Hall batch Hb). }
    rewrite (Insert_nonempty this tx0 batch Hne). now rewrite (Hstmt batch Hb). }
  split; [reflexivity|].
  intros engine. rewrite Hsave. apply run_RunTransaction.
Qed.
Lemma IsValid_fields (r : Item) :
  IsValid r = true ->
  type r <> kUndefined /\ confirmation_type r <> kUndefined /\
  is_valid (target_url r) = true.
Proof.
  unfold IsValid. rewrite !andb_true_iff.
  intros [[[[[[[Ht Hc] _] _] _] _] _] Hu].
  repeat split; [now apply is_defined_spec|now apply is_defined_spec|exact Hu].
Qed.

Lemma FromMojomRow_Encode (r : Item) :
  IsValid r = true -> FromMojomRow (mkDBRowInfo (Encode r)) = r.
Proof.
  intros Hv. destruct (IsValid_fields r Hv) as (Ht & Hc & Hu).
  unfold FromMojomRow, Encode, ColumnInt64, ColumnString,
    ToAdType, ToConfirmationType,
    ToTimeFromChromeTimestamp, ToChromeTimestampFromTime.
  cbn [column_values_union nth_error].
  rewrite (FromString_ToString Ht), (FromString_ToString Hc),
    (GURL_spec _ Hu).
  destruct r as [[t] ? ? ? ? ? ? ? ? ? ? ?]. reflexivity.
Qed.

(** C7: for every valid record [r], binding its columns and extracting the
    row at the same column positions gives back [r] in every field: the
    twelve values are bound at positions 0 to 11 in the column order
    (timestamp as its microsecond count, enums as their string names, the
    URL as its spec), and the timestamp is decoded back unchanged. *)
Theorem Decode_Encode_roundtrip :
  forall (r : Item),
    IsValid r = true ->
    exists s,
      BindColumns (DBStatementInfo_New kRun) [r] = Some (s, 1%nat) /\
      map index (bind_columns s) = [0; 1; 2; 3; 4; 5; 6; 7; 8; 9; 10; 11] /\
      map value_union (bind_columns s) =
        [ Int64Value (us_ (created_at r));
          StringValue (ToString (type r));
          StringValue (ToString (confirmation_type r));
          StringValue (placement_id r);
          StringValue (creative_instance_id r);
          StringValue (creative_set_id r);
          StringValue (campaign_id r);
          StringValue (advertiser_id r);
          StringValue (segment r);
          StringValue (title r);
          StringValue (description r);
          StringValue (spec (target_url r)) ] /\
      FromMojomRow (bound_row (bind_columns s)) = r /\
      ToTimeFromChromeTimestamp (ToChromeTimestampFromTime (created_at r))
        = created_at r.
Proof.
  intros r Hv.
  unfold BindColumns. cbn [BindColumns_loop]. rewrite Hv. cbn [negb].
  rewrite bind_item_spec. eexists. split; [reflexivity|].
  unfold with_bindings, DBStatementInfo_New. cbn [bind_columns app].
  split; [reflexivity|].
  split; [apply bindings_from_values|].
  split.
  - unfold bound_row. rewrite bindings_from_values.
    now apply FromMojomRow_Encode.
  - now destruct (created_at r).
Qed.


(** C6: each [Get*] operation submits a transaction of one statement and
    hands the engine's statement result to [GetCallback]; when the result is
    missing or its code is not success the completion receives no result
    ([None]), and when the code is success (with the rows the [CHECK]
    demands) it receives a list, possibly empty; whatever the completion
    receives, it is no result exactly when the execution failed and a list
    exactly when it succeeded. *)
Theorem Get_failure_is_not_an_empty_list :
  forall (this : AdHistory) (from_time to_time : Time) (id : string)
         (op : Ads (option (list Item))),
    In op [ GetForDateRange this from_time to_time;
            GetHighestRankedPlacementsForDateRange this from_time to_time;
            GetForCreativeInstanceId this id ] ->
    exists tx,
      op = RunDBTransaction tx GetCallback' /\
      List.length (statements tx) = 1%nat /\
      forall engine,
        (engine tx = None -> run engine op = ([tx], Some None)) /\
        (forall result, engine tx = Some result ->
           result_code result <> kSuccess ->
           run engine op = ([tx], Some None)) /\
        (forall result rows, engine tx = Some result ->
           result_code result = kSuccess ->
           rows_union result = Some rows ->
           run engine op = ([tx], Some (Some (GetCallback_rows rows)))) /\
        (forall r, run engine op = ([tx], Some r) ->
           (r = None <-> IsTransactionSuccessful (engine tx) = false) /\
           ((exists ad_history, r = Some ad_history) <->
            IsTransactionSuccessful (engine tx) = true)).
Proof.
  intros this from_time to_time id op Hop.
  assert (Hshape : exists tx, op = RunDBTransaction tx GetCallback' /\
                              List.length (statements tx) = 1%nat).
  { cbn in Hop.
    destruct Hop as [<-|[<-|[<-|[]]]]; eexists; split; reflexivity. }
  destruct Hshape as (tx & -> & Hlen). exists tx.
  split; [reflexivity|]. split; [exact Hlen|].
  intros engine. cbn. split; [|split; [|split]].
  - intros ->. reflexivity.
  - intros result -> Hcode. cbn.
    destruct (result_code result); [congruence|reflexivity].
  - intros result rows -> Hcode Hrows. cbn. now rewrite Hcode, Hrows.
  - intros r0. destruct (engine tx) as [result|]; cbn.
    + destruct (result_code result); cbn.
      * destruct (rows_union result); cbn; [|discriminate].
        intros [= <-]. split; split; try discriminate; try reflexivity.
        intros _. eexists; reflexivity.
      * intros [= <-]. split; split; try discriminate; try reflexivity.
        intros [? ?]; discriminate.
    + intros [= <-]. split; split; try discriminate; try reflexivity.
      intros [? ?]; discriminate.
Qed.
End AdHistoryClaims.

(** ** The claims on the sample data *)




(** Running C10 on three invalid records with batch size 2. *)
Lemma Save_all_invalid_witness :
  Save (mkAdHistory 2) [invalid_item; invalid_item; invalid_item]
    <> Ret true.
Proof.
  apply (Save_all_invalid (mkAdHistory 2)
           [invalid_item; invalid_item; invalid_item]).
  - discriminate.
  - intros r [<-|[<-|[<-|[]]]]; reflexivity.
  - vm_compute; lia.
Defined.

(** Running C7 on the sample record. *)
Lemma Decode_Encode_roundtrip_witness :
  exists s,
    BindColumns (DBStatementInfo_New kRun) [sample_item] = Some (s, 1%nat) /\
    FromMojomRow (bound_row (bind_columns s)) = sample_item.
Proof.
  assert (Hv : IsValid sample_item = true) by reflexivity.
  destruct (Decode_Encode_roundtrip sample_item Hv)
    as (s & Hbind & _ & _ & Hdecode & _).
  exists s. split; [exact Hbind|exact Hdecode].
Defined.


(** Running C6 on [GetForDateRange] against an engine that returns no
    statement result. *)
Lemma Get_failure_is_not_an_empty_list_witness :
  exists tx,
    GetForDateRange AdHistory_ctor (mkTime 0) (mkTime 1000)
      = RunDBTransaction tx
          (GetCallback (AdType := SampleAdType)
             (ConfirmationType := SampleConfirmationType) (Gurl := string)) /\
    run (constant_engine None)
        (GetForDateRange (AdType := SampleAdType)
           (ConfirmationType := SampleConfirmationType) (Gurl := string)
           AdHistory_ctor (mkTime 0) (mkTime 1000))
      = ([tx], Some None).
Proof.
  destruct (Get_failure_is_not_an_empty_list
              (AdType := SampleAdType)
              (ConfirmationType := SampleConfirmationType) (Gurl := string)
              AdHistory_ctor (mkTime 0) (mkTime 1000) "instance-1"
              (GetForDateRange AdHistory_ctor (mkTime 0) (mkTime 1000))
              (or_introl eq_refl))
    as (tx & Heq & _ & Hall).
  exists tx. split; [exact Heq|].
  apply (proj1 (Hall (constant_engine None))). reflexivity.
Defined.

(* ===================================================================== *)
(** * Part IV: further properties                                         *)
(* ===================================================================== *)

(** ** The priority buckets *)

Lemma StronglySorted_lt_NoDup (ks : list Z) :
  StronglySorted Z.lt ks -> NoDup ks.
Proof.
  induction 1 as [|k ks Hs IH Hall]; constructor; [|exact IH].
  intros Hin. rewrite Forall_forall in Hall. specialize (Hall k Hin). lia.
Qed.

Lemma Permutation_filter_compat {A : Type} (f : A -> bool) (l l' : list A) :
  Permutation l l' -> Permutation (filter f l) (filter f l').
Proof.
  induction 1 as [|x l l' _ IH|x y l|l l' l'' _ IH1 _ IH2]; simpl.
  - constructor.
  - destruct (f x); [now constructor|exact IH].
  - destruct (f x), (f y); try reflexivity. apply perm_swap.
  - now transitivity (filter f l').
Qed.

Section PriorityExtras.
Variable CreativeAd : Type.
Variable priority : CreativeAd -> Z.

Local Abbreviation buckets_of := (SortCreativeAdsIntoBucketsByPriority priority).
Local Abbreviation highest := (HighestPriorityCreativeAds priority).
Local Abbreviation eligible :=
  (filter (fun c : CreativeAd => negb (priority c =? 0))).

Lemma FlatMap_find_entry (V : Type) (m : FlatMap.t V) k v :
  FlatMap.sorted m -> In (k, v) m -> FlatMap.find k m = Some v.
Proof.
  induction m as [|[k0 v0] m IH]; intros Hs Hin; [contradiction|].
  simpl. destruct Hin as [[= -> ->]|Hin].
  - now rewrite Z.eqb_refl.
  - assert (Hk : In k (FlatMap.keys m))
      by (apply in_map_iff; exists (k, v); split; [reflexivity|exact Hin]).
    pose proof (FlatMap_sorted_head_lt _ _ _ _ _ Hs Hk).
    destruct (Z.eqb_spec k k0); [lia|].
    apply IH; [exact (FlatMap_sorted_tail _ _ _ _ Hs)|exact Hin].
Qed.

(** X1: the map [SortCreativeAdsIntoBucketsByPriority] returns has strictly
    increasing keys (so every priority has a single bucket), never has the
    key 0, never holds an empty bucket, and the bucket under a key is the
    list of the candidates with that priority, in input order. *)
Theorem buckets_well_formed :
  forall l : list CreativeAd,
    let buckets := SortCreativeAdsIntoBucketsByPriority priority l in
    StronglySorted Z.lt (FlatMap.keys buckets) /\
    NoDup (FlatMap.keys buckets) /\
    ~ In 0 (FlatMap.keys buckets) /\
    Forall (fun entry =>
              snd entry <> [] /\
              snd entry = with_priority priority (fst entry) l)
           buckets.
Proof.
  intros l. cbv zeta. pose proof (buckets_sorted _ priority l) as Hs.
  split; [exact Hs|]. split; [now apply StronglySorted_lt_NoDup|]. split.
  - intros Hin. apply buckets_keys in Hin. destruct Hin as [Hnz _]. lia.
  - apply Forall_forall. intros [k v] Hin. simpl.
    assert (Hk : In k (FlatMap.keys (buckets_of l)))
      by (apply in_map_iff; exists (k, v); split; [reflexivity|exact Hin]).
    apply buckets_keys in Hk. destruct Hk as (Hnz & c & Hc & Hp).
    pose proof (FlatMap_find_entry _ _ k v Hs Hin) as Hfind.
    pose proof (buckets_at _ priority l k Hnz) as Hat.
    unfold FlatMap.value_at in Hat. rewrite Hfind in Hat. subst v.
    split; [|reflexivity].
    intros Hnil.
    assert (Hin' : In c (with_priority priority k l))
      by (apply with_priority_In; now split).
    rewrite Hnil in Hin'. contradiction.
Qed.

Lemma update_concat_perm (m : FlatMap.t (list CreativeAd)) k c :
  Permutation
    (List.concat (map snd (FlatMap.update k [] (push_back c) m)))
    (List.concat (map snd m) ++ [c]).
Proof.
  induction m as [|[k0 v0] m IH]; simpl.
  - reflexivity.
  - destruct (k <? k0); simpl.
    + unfold push_back. simpl.
      change (c :: v0 ++ List.concat (map snd m))
        with ([c] ++ (v0 ++ List.concat (map snd m))).
      apply Permutation_app_comm.
    + destruct (k =? k0); simpl.
      * unfold push_back. rewrite <- !app_assoc.
        apply Permutation_app_head. apply Permutation_app_comm.
      * rewrite <- app_assoc. now apply Permutation_app_head.
Qed.

Lemma bucket_loop_perm (l : list CreativeAd) :
  forall m,
    Permutation
      (List.concat (map snd (fold_left (bucket_step priority) l m)))
      (List.concat (map snd m) ++ eligible l).
Proof.
  induction l as [|c l IH]; intros m; simpl.
  - now rewrite app_nil_r.
  - rewrite IH. unfold bucket_step.
    destruct (priority c =? 0); simpl; [reflexivity|].
    rewrite update_concat_perm, <- app_assoc. reflexivity.
Qed.

(** X2: the buckets partition the candidates with a non-zero priority: a
    key is present exactly when some candidate carries that non-zero
    priority, the buckets together hold each such candidate as often as
    the input does, and nothing else. *)
Theorem buckets_partition :
  forall l : list CreativeAd,
    let buckets := SortCreativeAdsIntoBucketsByPriority priority l in
    (forall k, In k (FlatMap.keys buckets) <->
               k <> 0 /\ exists c, In c l /\ priority c = k) /\
    Permutation (List.concat (map snd buckets)) (eligible l) /\
    List.length (List.concat (map snd buckets))
      = List.length (eligible l) /\
    (forall c, In c l -> priority c <> 0 ->
       exists ads, In (priority c, ads) buckets /\ In c ads).
Proof.
  intros l. cbv zeta.
  assert (Hperm : Permutation (List.concat (map snd (buckets_of l)))
                              (eligible l))
    by apply (bucket_loop_perm l []).
  split; [intros k; apply buckets_keys|].
  split; [exact Hperm|].
  split; [now apply Permutation_length|].
  intros c Hc Hnz.
  destruct (buckets_find _ priority l c Hc Hnz) as [Hfind Hin].
  eexists. split; [|exact Hin].
  clear -Hfind. induction (buckets_of l) as [|[k0 v0] m IH]; [discriminate|].
  simpl in Hfind. destruct (Z.eqb_spec (priority c) k0) as [->|Hne].
  - injection Hfind as ->. now left.
  - right. now apply IH.
Qed.

Lemma HighestPriorityCreativeAds_least (l : list CreativeAd) k :
  k <> 0 ->
  (exists c, In c l /\ priority c = k) ->
  (forall c, In c l -> priority c <> 0 -> k <= priority c) ->
  highest l = with_priority priority k l.
Proof.
  intros Hk (c & Hc & Hp) Hleast.
  destruct (HighestPriorityCreativeAds_cases _ priority l)
    as [[Hall _]|(k' & Hk' & (c' & Hc' & Hp') & Hleast' & _ & Heq)].
  - specialize (Hall c Hc). congruence.
  - assert (k' <= k) by (rewrite <- Hp; apply Hleast'; [exact Hc|congruence]).
    assert (k <= k') by (rewrite <- Hp'; apply Hleast; [exact Hc'|congruence]).
    replace k with k' by lia. exact Heq.
Qed.

Lemma with_priority_idempotent (l : list CreativeAd) k :
  with_priority priority k (with_priority priority k l)
  = with_priority priority k l.
Proof.
  unfold with_priority. induction l as [|c l IH]; simpl; [reflexivity|].
  destruct (priority c =? k) eqn:E; simpl; [rewrite E, IH|]; auto.
Qed.

(** X3: [HighestPriorityCreativeAds] is idempotent; what it returns is a
    selection from its input in which all candidates share one non-zero
    priority. *)
Theorem HighestPriorityCreativeAds_idempotent :
  forall l : list CreativeAd,
    let result := HighestPriorityCreativeAds priority l in
    HighestPriorityCreativeAds priority result = result /\
    incl result l /\
    (forall c c', In c result -> In c' result ->
                  priority c = priority c' /\ priority c <> 0).
Proof.
  intros l. cbv zeta.
  destruct (HighestPriorityCreativeAds_cases _ priority l)
    as [[_ Hnil]|(k & Hk & (c0 & Hc0 & Hp0) & Hleast & _ & Heq)].
  - rewrite Hnil. repeat split; try reflexivity; try contradiction.
    intros c [].
  - rewrite Heq. split; [|split].
    + rewrite (HighestPriorityCreativeAds_least (with_priority priority k l) k).
      * apply with_priority_idempotent.
      * exact Hk.
      * exists c0. split; [apply with_priority_In; now split|exact Hp0].
      * intros c Hc _. apply with_priority_In in Hc. destruct Hc as [_ ->]. lia.
    + intros c Hc. apply with_priority_In in Hc. tauto.
    + intros c c' Hc Hc'. apply with_priority_In in Hc, Hc'.
      destruct Hc as [_ ->], Hc' as [_ ->]. split; [reflexivity|exact Hk].
Qed.

Lemma bucket_loop_skips_zero (l : list CreativeAd) :
  forall m,
    fold_left (bucket_step priority) (eligible l) m
    = fold_left (bucket_step priority) l m.
Proof.
  induction l as [|c l IH]; intros m; simpl; [reflexivity|].
  destruct (priority c =? 0) eqn:E; simpl.
  - rewrite IH. unfold bucket_step at 3. now rewrite E.
  - apply IH.
Qed.

Lemma HighestPriorityCreativeAds_nil_iff (l : list CreativeAd) :
  highest l = [] <-> forall c, In c l -> priority c = 0.
Proof.
  destruct (HighestPriorityCreativeAds_cases _ priority l)
    as [[Hall Hnil]|(k & Hk & (c0 & Hc0 & Hp0) & _ & _ & Heq)].
  - tauto.
  - split.
    + intros Hnil. rewrite Heq in Hnil.
      assert (Hin : In c0 (with_priority priority k l))
        by (apply with_priority_In; now split).
      rewrite Hnil in Hin. contradiction.
    + intros Hall. specialize (Hall c0 Hc0). congruence.
Qed.

(** X4: candidates with priority 0 have no influence: removing them from
    the input changes neither the buckets nor the result, and the result is
    empty exactly when every candidate has priority 0. *)
Theorem HighestPriorityCreativeAds_ignores_zero :
  forall l : list CreativeAd,
    SortCreativeAdsIntoBucketsByPriority priority (eligible l)
      = SortCreativeAdsIntoBucketsByPriority priority l /\
    HighestPriorityCreativeAds priority (eligible l)
      = HighestPriorityCreativeAds priority l /\
    (HighestPriorityCreativeAds priority l = [] <->
     forall c, In c l -> priority c = 0).
Proof.
  intros l.
  assert (Hb : buckets_of (eligible l) = buckets_of l)
    by apply bucket_loop_skips_zero.
  split; [exact Hb|]. split.
  - unfold HighestPriorityCreativeAds. now rewrite Hb.
  - apply HighestPriorityCreativeAds_nil_iff.
Qed.

(** X5: the result does not depend on the order of the candidates beyond
    their order inside the result: rearranging the input rearranges the
    result. *)
Theorem HighestPriorityCreativeAds_Permutation :
  forall l l' : list CreativeAd,
    Permutation l l' ->
    Permutation (HighestPriorityCreativeAds priority l)
                (HighestPriorityCreativeAds priority l').
Proof.
  intros l l' Hperm.
  assert (Hin : forall c, In c l <-> In c l').
  { intros c. split; apply Permutation_in;
      [exact Hperm|now apply Permutation_sym]. }
  destruct (HighestPriorityCreativeAds_cases _ priority l)
    as [[Hall Hnil]|(k & Hk & (c0 & Hc0 & Hp0) & Hleast & _ & Heq)].
  - rewrite Hnil.
    replace (highest l') with (@nil CreativeAd); [reflexivity|].
    symmetry. apply HighestPriorityCreativeAds_nil_iff.
    intros c Hc. apply Hall. now apply Hin.
  - rewrite Heq.
    rewrite (HighestPriorityCreativeAds_least l' k Hk).
    + now apply Permutation_filter_compat.
    + exists c0. split; [now apply Hin|exact Hp0].
    + intros c Hc. apply Hleast. now apply Hin.
Qed.
Lemma with_priority_twice (l : list CreativeAd) k k' :
  with_priority priority k (with_priority priority k' l)
  = if k =? k' then with_priority priority k l else [].
Proof.
  unfold with_priority. induction l as [|c l IH]; simpl.
  - now destruct (k =? k').
  - destruct (Z.eqb_spec (priority c) k') as [Hk'|Hk']; simpl.
    + rewrite IH. destruct (Z.eqb_spec k k') as [->|Hne].
      * reflexivity.
      * destruct (Z.eqb_spec (priority c) k); [congruence|reflexivity].
    + rewrite IH. destruct (Z.eqb_spec k k') as [->|Hne]; [|reflexivity].
      destruct (Z.eqb_spec (priority c) k'); [congruence|reflexivity].
Qed.

Lemma with_priority_highest (l : list CreativeAd) k :
  k <> 0 ->
  (forall c, In c l -> priority c <> 0 -> k <= priority c) ->
  with_priority priority k (highest l) = with_priority priority k l.
Proof.
  intros Hk Hleast.
  destruct (HighestPriorityCreativeAds_cases _ priority l)
    as [[Hall Hnil]|(k' & Hk' & (c0 & Hc0 & Hp0) & Hleast' & _ & Heq)].
  - rewrite Hnil. symmetry. apply filter_all_false.
    intros c Hc. specialize (Hall c Hc).
    destruct (Z.eqb_spec (priority c) k); [congruence|reflexivity].
  - rewrite Heq, with_priority_twice.
    destruct (Z.eqb_spec k k') as [->|Hne]; [reflexivity|].
    symmetry. apply filter_all_false. intros c Hc.
    destruct (Z.eqb_spec (priority c) k) as [Hp|]; [|reflexivity].
    assert (k' <= k) by (rewrite <- Hp; apply Hleast'; [exact Hc|congruence]).
    assert (k <= k') by (rewrite <- Hp0; apply Hleast; [exact Hc0|congruence]).
    lia.
Qed.

(** X19: the result over a concatenation can be computed from the results
    over its parts: the highest-priority candidates of [l1 ++ l2] are the
    highest-priority candidates among those of [l1] followed by those of
    [l2]. *)
Theorem HighestPriorityCreativeAds_app :
  forall l1 l2 : list CreativeAd,
    HighestPriorityCreativeAds priority (l1 ++ l2)
    = HighestPriorityCreativeAds priority
        (HighestPriorityCreativeAds priority l1
         ++ HighestPriorityCreativeAds priority l2).
Proof.
  intros l1 l2.
  assert (Hsub : forall c, In c (highest l1 ++ highest l2) -> In c (l1 ++ l2)).
  { intros c Hc. apply in_app_iff in Hc. apply in_app_iff.
    destruct Hc as [Hc|Hc]; [left|right]; revert c Hc.
    - destruct (HighestPriorityCreativeAds_cases _ priority l1)
        as [[_ ->]|(k & _ & _ & _ & _ & ->)]; intros c Hc;
        [contradiction|apply with_priority_In in Hc; tauto].
    - destruct (HighestPriorityCreativeAds_cases _ priority l2)
        as [[_ ->]|(k & _ & _ & _ & _ & ->)]; intros c Hc;
        [contradiction|apply with_priority_In in Hc; tauto]. }
  destruct (HighestPriorityCreativeAds_cases _ priority (l1 ++ l2))
    as [[Hall Hnil]|(k & Hk & (c0 & Hc0 & Hp0) & Hleast & _ & Heq)].
  - rewrite Hnil. symmetry. apply HighestPriorityCreativeAds_nil_iff.
    intros c Hc. apply Hall. now apply Hsub.
  - rewrite Heq.
    assert (Hsame : with_priority priority k (highest l1 ++ highest l2)
                    = with_priority priority k (l1 ++ l2)).
    { rewrite !with_priority_app. f_equal; apply with_priority_highest;
        try exact Hk; intros c Hc; apply Hleast; apply in_app_iff; auto. }
    rewrite <- Hsame. symmetry.
    apply HighestPriorityCreativeAds_least; [exact Hk| |].
    + exists c0. split; [|exact Hp0].
      assert (Hin : In c0 (with_priority priority k (l1 ++ l2)))
        by (apply with_priority_In; now split).
      rewrite <- Hsame in Hin. apply with_priority_In in Hin. tauto.
    + intros c Hc. apply Hleast. now apply Hsub.
Qed.
End PriorityExtras.

(** ** The statements of the table *)

Lemma StronglySorted_filter {A : Type} (R : A -> A -> Prop)
    (f : A -> bool) (l : list A) :
  StronglySorted R l -> StronglySorted R (filter f l).
Proof.
  induction 1 as [|x l Hs IH Hall]; simpl; [constructor|].
  destruct (f x); [|exact IH].
  constructor; [exact IH|].
  rewrite Forall_forall in *. intros y Hy. apply filter_In in Hy.
  apply Hall. tauto.
Qed.

Lemma StronglySorted_map {A B : Type} (R : A -> A -> Prop)
    (R' : B -> B -> Prop) (f : A -> B) (l : list A) :
  (forall a b, R a b -> R' (f a) (f b)) ->
  StronglySorted R l -> StronglySorted R' (map f l).
Proof.
  intros HR. induction 1 as [|x l Hs IH Hall]; simpl; constructor;
    [exact IH|].
  rewrite Forall_forall in *. intros y Hy. apply in_map_iff in Hy.
  destruct Hy as (a & <- & Ha). apply HR. now apply Hall.
Qed.

Lemma delete_expired_idempotent cutoff table :
  delete_expired cutoff (delete_expired cutoff table)
  = delete_expired cutoff table.
Proof.
  unfold delete_expired. induction table as [|r table IH]; simpl; [reflexivity|].
  destruct (negb (row_created_at r <=? cutoff)) eqn:E; simpl;
    [rewrite E, IH|]; auto.
Qed.


Lemma clamp_int64_monotone a b : a <= b -> clamp_int64 a <= clamp_int64 b.
Proof. unfold clamp_int64. lia. Qed.

Section StatementExtras.
Context {AdType ConfirmationType Gurl : Type}.
Context {AdTypeStrings : EnumStrings AdType}.
Context {ConfirmationTypeStrings : EnumStrings ConfirmationType}.
Context {GurlUrl : Url Gurl}.

End StatementExtras.

(** X7: what the ranking query keeps, compared with the plain date-range
    query over the same table and range: only rows the date-range query
    selects; only rows whose confirmation type is click, dismiss or view;
    within one [placement_id] only rows of one priority; and at least one
    row for every placement that has a click, dismiss or view in range. *)
Theorem highest_ranked_rows_structure :
  forall (table : Table) (name : string) (from_time to_time : Z)
         (rows ranked : list TableRow),
    selected_rows (SqlSelectForDateRange name from_time to_time) table
      = Some rows ->
    selected_rows (SqlSelectHighestRankedPlacements name from_time to_time)
      table = Some ranked ->
    incl ranked rows /\
    (forall r, In r ranked ->
       row_confirmation_type r = "click" \/
       row_confirmation_type r = "dismiss" \/
       row_confirmation_type r = "view") /\
    (forall r r', In r ranked -> In r' ranked ->
       row_placement_id r = row_placement_id r' ->
       row_priority r = row_priority r') /\
    (forall r, In r rows -> 0 < row_priority r ->
       exists winner, In winner ranked /\
         row_placement_id winner = row_placement_id r /\
         row_priority winner <= row_priority r).
Proof.
  intros table name from_time to_time rows ranked Hrows Hranked.
  simpl in Hrows, Hranked. injection Hrows as <-. injection Hranked as <-.
  set (kept := map fst (FilteredAdHistory
                          (PrioritizedAdHistory table from_time to_time))).
  set (inrange := filter (fun r => between from_time to_time
                                     (row_created_at r)) table).
  assert (Hk : forall r, In r (order_by_created_at_desc kept) <-> In r kept).
  { intros r. split; apply Permutation_in;
      [|apply Permutation_sym]; apply order_by_created_at_desc_perm. }
  assert (Hi : forall r, In r (order_by_created_at_desc inrange) <->
                         In r table /\ from_time <= row_created_at r <= to_time).
  { intros r. split.
    - intros Hr.
      apply (Permutation_in _ (order_by_created_at_desc_perm inrange)) in Hr.
      apply filter_In in Hr. now rewrite between_spec in Hr.
    - intros Hr.
      apply (Permutation_in _
               (Permutation_sym (order_by_created_at_desc_perm inrange))).
      apply filter_In. now rewrite between_spec. }
  split; [|split; [|split]].
  - intros r Hr. apply Hk, In_FilteredAdHistory in Hr. apply Hi. tauto.
  - intros r Hr. apply Hk, In_FilteredAdHistory in Hr.
    destruct Hr as (_ & _ & Hpos & _). unfold row_priority in Hpos.
    destruct (confirmation_priority_cases (row_confirmation_type r))
      as [[? _]|[[? _]|[[? _]|(_ & _ & _ & H0)]]]; auto. lia.
  - intros r r' Hr Hr' Hpl.
    apply Hk, In_FilteredAdHistory in Hr, Hr'.
    destruct Hr as (Hin & Hb & Hpos & Hle).
    destruct Hr' as (Hin' & Hb' & Hpos' & Hle').
    specialize (Hle r' Hin' Hb' (eq_sym Hpl) Hpos').
    specialize (Hle' r Hin Hb Hpl Hpos). lia.
  - intros r Hr Hpos. apply Hi in Hr. destruct Hr as [Hin Hb].
    destruct (min_positive_priority
                (PrioritizedAdHistory table from_time to_time)
                (row_placement_id r)) as [m|] eqn:Hm.
    + apply min_positive_priority_Some in Hm.
      destruct Hm as [(w & Hw & Hwb & Hwp & Hwm & Hmpos) Hle].
      exists w. split; [|split; [exact Hwp|]].
      * apply Hk, In_FilteredAdHistory. repeat split; try tauto; try lia.
        intros r' Hr' Hb' Hpl' Hpos'. rewrite Hwm. apply Hle; auto.
        congruence.
      * rewrite Hwm. now apply Hle.
    + exfalso. unfold min_positive_priority in Hm.
      apply sql_min_None in Hm. apply map_eq_nil in Hm.
      assert (Hmem : In (r, row_priority r)
                (filter (fun other =>
                           String.eqb (row_placement_id (fst other))
                                      (row_placement_id r)
                           && (0 <? snd other))
                        (PrioritizedAdHistory table from_time to_time))).
      { apply filter_In. split.
        - apply In_PrioritizedAdHistory. auto.
        - simpl. rewrite String.eqb_refl. simpl. now apply Z.ltb_lt. }
      rewrite Hm in Hmem. contradiction.
Qed.

(** X8: a click always wins its placement: an in-range click row is kept by
    the ranking query, and every row the query keeps for that placement is
    a click. *)
Theorem click_wins_its_placement :
  forall (table : Table) (name : string) (from_time to_time : Z)
         (ranked : list TableRow) (r : TableRow),
    selected_rows (SqlSelectHighestRankedPlacements name from_time to_time)
      table = Some ranked ->
    In r table -> from_time <= row_created_at r <= to_time ->
    row_confirmation_type r = "click" ->
    In r ranked /\
    (forall w, In w ranked -> row_placement_id w = row_placement_id r ->
               row_confirmation_type w = "click").
Proof.
  intros table name from_time to_time ranked r Hranked Hin Hb Hclick.
  simpl in Hranked. injection Hranked as <-.
  assert (Hk : forall x,
            In x (order_by_created_at_desc
                    (map fst (FilteredAdHistory
                       (PrioritizedAdHistory table from_time to_time)))) <->
            In x (map fst (FilteredAdHistory
                    (PrioritizedAdHistory table from_time to_time)))).
  { intros x. split; apply Permutation_in;
      [|apply Permutation_sym]; apply order_by_created_at_desc_perm. }
  assert (Hone : row_priority r = 1)
    by (unfold row_priority; rewrite Hclick; reflexivity).
  assert (Hge : forall x, 0 < row_priority x -> 1 <= row_priority x)
    by (intros; lia).
  split.
  - apply Hk, In_FilteredAdHistory.
    split; [exact Hin|]. split; [exact Hb|]. split; [lia|].
    intros r' _ _ _ Hpos. rewrite Hone. now apply Hge.
  - intros w Hw Hpl. apply Hk, In_FilteredAdHistory in Hw.
    destruct Hw as (_ & _ & Hpos & Hle).
    specialize (Hle r Hin Hb (eq_sym Hpl)). rewrite Hone in Hle.
    specialize (Hle ltac:(lia)). unfold row_priority in *.
    destruct (confirmation_priority_cases (row_confirmation_type w))
      as [[? _]|[[_ ?]|[[_ ?]|(_ & _ & _ & ?)]]]; [assumption|lia..].
Qed.


(** X10: purging composes as expected: a second purge with the same cutoff
    deletes nothing more; a longer retention period keeps every row a
    shorter one keeps; and after a purge the date-range query selects
    exactly the in-range rows that are newer than the cutoff. *)
Theorem PurgeExpired_composition :
  forall (now : Time) (retention_period : TimeDelta) (table : Table),
    let cutoff := us_ (Time_sub now retention_period) in
    delete_expired cutoff (delete_expired cutoff table)
      = delete_expired cutoff table /\
    (forall longer : TimeDelta,
       delta_ retention_period <= delta_ longer ->
       incl (delete_expired cutoff table)
            (delete_expired (us_ (Time_sub now longer)) table)) /\
    (forall (name : string) (from_time to_time : Z), exists rows,
       selected_rows (SqlSelectForDateRange name from_time to_time)
         (delete_expired cutoff table) = Some rows /\
       forall r, In r rows <->
         In r table /\ from_time <= row_created_at r <= to_time /\
         cutoff < row_created_at r).
Proof.
  intros now retention_period table cutoff.
  split; [apply delete_expired_idempotent|]. split.
  - intros longer Hlonger r Hr. apply delete_expired_In in Hr.
    apply delete_expired_In. split; [tauto|].
    assert (us_ (Time_sub now longer) <= cutoff).
    { unfold cutoff. simpl. apply clamp_int64_monotone. lia. }
    lia.
  - intros name from_time to_time. eexists. split; [reflexivity|].
    intros r.
    assert (Hp : forall l x, In x (order_by_created_at_desc l) <-> In x l).
    { intros l x. split; apply Permutation_in;
        [|apply Permutation_sym]; apply order_by_created_at_desc_perm. }
    rewrite Hp, filter_In, between_spec, delete_expired_In. tauto.
Qed.

(** ** Binding, inserting and reading back *)

Lemma bindings_from_length i vs :
  List.length (bindings_from i vs) = List.length vs.
Proof.
  revert i. induction vs as [|v vs IH]; intros i; simpl; [reflexivity|].
  now rewrite IH.
Qed.

Lemma bindings_from_nth i vs k b :
  nth_error (bindings_from i vs) k = Some b -> index b = i + Z.of_nat k.
Proof.
  revert i k. induction vs as [|v vs IH]; intros i k Hk.
  - destruct k; discriminate.
  - destruct k as [|k]; simpl in Hk.
    + injection Hk as <-. simpl. lia.
    + apply IH in Hk. lia.
Qed.

Lemma firstn_skipn_exact {A : Type} (a b : list A) :
  firstn (List.length a) (a ++ b) = a /\ skipn (List.length a) (a ++ b) = b.
Proof.
  induction a as [|x a [IH1 IH2]]; simpl; [split; reflexivity|].
  now rewrite IH1, IH2.
Qed.

Section AdHistoryExtras.
Context {AdType ConfirmationType Gurl : Type}.
Context {AdTypeStrings : EnumStrings AdType}.
Context {ConfirmationTypeStrings : EnumStrings ConfirmationType}.
Context {GurlUrl : Url Gurl}.

Local Abbreviation Item := (@AdHistoryItemInfo AdType ConfirmationType Gurl).
Local Abbreviation GetCallback' :=
  (GetCallback (AdType := AdType) (ConfirmationType := ConfirmationType)
     (Gurl := Gurl)).
Local Abbreviation Decode :=
  (FromMojomRow (AdType := AdType) (ConfirmationType := ConfirmationType)
     (Gurl := Gurl)).

Lemma Encode_concat_length (items : list Item) :
  List.length (List.concat (map Encode items)) = (12 * List.length items)%nat.
Proof.
  induction items as [|item items IH]; [reflexivity|].
  cbn [map List.concat]. rewrite List.length_app, Encode_length, IH.
  cbn [List.length]. lia.
Qed.

Lemma SplitVector_Encode (items : list Item) :
  SplitVector (List.concat (map Encode items)) 12 = map Encode items.
Proof.
  induction items as [|item items IH]; [reflexivity|].
  cbn [map List.concat].
  rewrite SplitVector_step; [|discriminate|lia].
  destruct (firstn_skipn_exact (Encode item)
              (List.concat (map Encode items))) as [Hf Hs].
  rewrite Encode_length in Hf, Hs. now rewrite Hf, Hs, IH.
Qed.

Lemma Decode_Encode_valid (items : list Item) :
  Forall (fun item => IsValid item = true) items ->
  map (fun values => Decode (mkDBRowInfo values)) (map Encode items) = items.
Proof.
  induction 1 as [|item items Hv _ IH]; [reflexivity|].
  cbn [map]. now rewrite IH, (FromMojomRow_Encode item Hv).
Qed.

Lemma filter_IsValid_valid (l : list Item) :
  Forall (fun item => IsValid item = true) (filter IsValid l).
Proof.
  apply Forall_forall. intros item Hin. apply filter_In in Hin. tauto.
Qed.

(** X11: the insert statement [Insert] appends for a non-empty batch is
    consistent: it is a [kRun] statement on [ad_history] whose text announces
    as many value tuples of 12 columns as the batch has valid records, it
    binds exactly 12 values per tuple, the binding at position [k] carries
    index [k], and the statements already in the transaction stay in
    place. *)
Theorem Insert_bindings_match_placeholders :
  forall (this : AdHistory) (tx : DBTransactionInfo) (batch : list Item),
    batch <> [] ->
    exists s,
      Insert this tx batch = Some (mkDBTransactionInfo (statements tx ++ [s]))
      /\
      operation_type s = kRun /\
      sql s = Some (SqlInsert kTableName
                      (mkPlaceholders 12
                         (List.length (filter IsValid batch)))) /\
      (statement_row_count s <= List.length batch)%nat /\
      List.length (bind_columns s) = (12 * statement_row_count s)%nat /\
      (forall k b, nth_error (bind_columns s) k = Some b ->
                   index b = Z.of_nat k).
Proof.
  intros this tx batch Hb. exists (insert_statement this batch).
  split; [now apply Insert_nonempty|].
  rewrite insert_statement_spec.
  unfold statement_row_count. cbn [operation_type sql bind_columns
                                   placeholder_rows].
  split; [reflexivity|]. split; [reflexivity|].
  split; [apply List.filter_length_le|].
  split.
  - now rewrite bindings_from_length, Encode_concat_length.
  - intros k b Hk. apply bindings_from_nth in Hk. lia.
Qed.

Lemma concat_Encode_batches (batches : list (list Item)) :
  List.concat
    (map (fun batch => List.concat (map Encode (filter IsValid batch)))
         batches)
  = List.concat (map Encode (filter IsValid (List.concat batches))).
Proof.
  induction batches as [|b bs IH]; [reflexivity|].
  cbn [map List.concat].
  now rewrite filter_app, map_app, List.concat_app, IH.
Qed.

Lemma valid_count_batches (batches : list (list Item)) :
  list_sum (map (fun batch => List.length (filter IsValid batch)) batches)
  = List.length (filter IsValid (List.concat batches)).
Proof.
  induction batches as [|b bs IH]; [reflexivity|].
  cbn [map List.concat]. unfold list_sum in *. cbn [fold_right].
  now rewrite IH, filter_app, List.length_app.
Qed.

(** X12: batching loses and reorders nothing: the values the statements
    of a [Save] transaction bind, read statement after statement, are the
    twelve column values of each valid record of the input, in input
    order, and the value tuples the statements announce add up to the
    number of valid records. *)
Theorem Save_binds_valid_records_in_order :
  forall (this : AdHistory) (l : list Item),
    l <> [] -> (0 < batch_size_ this)%nat ->
    exists tx,
      Save this l = RunTransaction tx /\
      List.concat (map bound_values (statements tx))
        = List.concat (map Encode (filter IsValid l)) /\
      list_sum (map statement_row_count (statements tx))
        = List.length (filter IsValid l).
Proof.
  intros this l Hl Hn. eexists. split; [now apply Save_nonempty|].
  cbn [statements]. rewrite !map_map.
  rewrite <- (SplitVector_concat _ l (batch_size_ this) Hn) at 2 4.
  rewrite <- concat_Encode_batches, <- valid_count_batches.
  split; f_equal; apply map_ext; intros batch;
    rewrite insert_statement_spec.
  - unfold bound_values. cbn [bind_columns]. apply bindings_from_values.
  - reflexivity.
Qed.

(** X13: what an insert statement binds reads back as the valid records of
    its batch: cutting the bound values into tuples of 12 and extracting a
    record from each tuple gives the valid records of the batch, in
    order. *)
Theorem bound_tuples_decode_to_valid_records :
  forall (this : AdHistory) (tx : DBTransactionInfo) (batch : list Item),
    batch <> [] ->
    exists s,
      Insert this tx batch = Some (mkDBTransactionInfo (statements tx ++ [s]))
      /\
      map (fun values => Decode (mkDBRowInfo values))
          (SplitVector (bound_values s) 12)
        = filter IsValid batch.
Proof.
  intros this tx batch Hb. exists (insert_statement this batch).
  split; [now apply Insert_nonempty|].
  rewrite insert_statement_spec. unfold bound_values. cbn [bind_columns].
  rewrite bindings_from_values, SplitVector_Encode.
  apply Decode_Encode_valid, filter_IsValid_valid.
Qed.

(** X14: the empty batch is guarded in [Insert] only: [Insert] leaves the
    transaction untouched on an empty batch, whereas [BuildInsertSql] and
    [BindColumns] fail their [CHECK] on an empty list; on a non-empty list
    none of the three fails, and [BindColumns] leaves the statement's
    operation type, text, declared column types and earlier bindings as
    they were. *)
Theorem Insert_guards_the_empty_batch :
  forall (this : AdHistory) (tx : DBTransactionInfo) (s : DBStatementInfo),
    Insert this tx (@nil Item) = Some tx /\
    BuildInsertSql this s (@nil Item) = None /\
    BindColumns s (@nil Item) = None /\
    forall l : list Item, l <> [] ->
      Insert this tx l <> None /\
      BuildInsertSql this s l <> None /\
      exists s' row_count,
        BindColumns s l = Some (s', row_count) /\
        operation_type s' = operation_type s /\
        sql s' = sql s /\
        bind_column_types s' = bind_column_types s /\
        firstn (List.length (bind_columns s)) (bind_columns s')
          = bind_columns s /\
        row_count = List.length (filter IsValid l).
Proof.
  intros this tx s. repeat (split; [reflexivity|]).
  intros l Hl. split; [rewrite (Insert_nonempty this tx l Hl); discriminate|].
  destruct l as [|item l]; [congruence|].
  unfold BuildInsertSql, BindColumns.
  rewrite BindColumns_loop_spec. split; [discriminate|].
  eexists. eexists. split; [reflexivity|].
  unfold with_bindings. cbn [operation_type sql bind_column_types bind_columns].
  repeat (split; [reflexivity|]). split; [|reflexivity].
  apply firstn_skipn_exact.
Qed.
(** X15: the twelve column types [BindColumnTypes] declares for a [Get*]
    statement are the types of the twelve columns the statement selects and
    of the twelve values [BindColumns] binds for a record, position by
    position; [FromMojomRow] therefore reads every field of a selected row
    from the column of the same name. *)
Theorem declared_column_types_agree :
  forall (q : Sql) (r : TableRow) (item : Item),
    bind_column_types (step_statement q)
      = map column_type_of (column_values_union (select_columns r)) /\
    bind_column_types (step_statement q)
      = map column_type_of (Encode item) /\
    Decode (select_columns r)
      = mkAdHistoryItemInfo
          (ToTimeFromChromeTimestamp (row_created_at r))
          (ToAdType (row_type r))
          (ToConfirmationType (row_confirmation_type r))
          (row_placement_id r) (row_creative_instance_id r)
          (row_creative_set_id r) (row_campaign_id r) (row_advertiser_id r)
          (row_segment r) (row_title r) (row_description r)
          (GURL (row_target_url r)).
Proof. intros q r item. repeat split. Qed.

Lemma run_table_engine_step (q : Sql) (table : Table) rows :
  selected_rows q table = Some rows ->
  run (table_engine table)
      (RunDBTransaction (mkDBTransactionInfo [step_statement q]) GetCallback')
  = ([mkDBTransactionInfo [step_statement q]],
     Some (Some (filter IsValid
                   (map (fun r => Decode (select_columns r)) rows)))).
Proof.
  intros Hsel. unfold run, table_engine.
  cbn [statements step_statement BindColumnTypes set_bind_column_types
       set_sql sql].
  rewrite Hsel. cbn.
  now rewrite GetCallback_rows_filter, map_map.
Qed.

Lemma decoded_rows_newest_first rows :
  StronglySorted newest_first rows ->
  StronglySorted
    (fun a b : Item => us_ (created_at b) <= us_ (created_at a))
    (filter IsValid (map (fun r => Decode (select_columns r)) rows)).
Proof.
  intros Hs. apply StronglySorted_filter.
  apply (StronglySorted_map newest_first); [|exact Hs].
  intros a b Hab. exact Hab.
Qed.

(** X16: against an engine that answers a statement with the rows its query
    selects from a table, [GetForDateRange] and
    [GetHighestRankedPlacementsForDateRange] hand their completion a list
    of valid records, each decoded from a stored row with [created_at] in
    the inclusive range [from, to], ordered by [created_at] descending;
    [GetForDateRange] misses no in-range row that decodes to a valid
    record. *)
Theorem Get_for_date_range_against_table :
  forall (this : AdHistory) (from_time to_time : Time) (table : Table)
         (op : Ads (option (list Item))),
    In op [ GetForDateRange this from_time to_time;
            GetHighestRankedPlacementsForDateRange this from_time to_time ] ->
    exists tx ad_history,
      run (table_engine table) op = ([tx], Some (Some ad_history)) /\
      Forall (fun item =>
                IsValid item = true /\
                us_ from_time <= us_ (created_at item) <= us_ to_time /\
                exists r, In r table /\ item = Decode (select_columns r))
             ad_history /\
      StronglySorted
        (fun a b : Item => us_ (created_at b) <= us_ (created_at a))
        ad_history /\
      (op = GetForDateRange this from_time to_time ->
       forall r, In r table ->
         us_ from_time <= row_created_at r <= us_ to_time ->
         IsValid (Decode (select_columns r)) = true ->
         In (Decode (select_columns r)) ad_history).
Proof.
  intros this from_time to_time table op Hop.
  assert (Hp : forall l x, In x (order_by_created_at_desc l) <-> In x l).
  { intros l x. split; apply Permutation_in;
      [|apply Permutation_sym]; apply order_by_created_at_desc_perm. }
  assert (Hgen : forall q rows,
    op = RunDBTransaction (mkDBTransactionInfo [step_statement q])
           GetCallback' ->
    selected_rows q table = Some rows ->
    StronglySorted newest_first rows ->
    (forall r, In r rows ->
       In r table /\ us_ from_time <= row_created_at r <= us_ to_time) ->
    exists tx ad_history,
      run (table_engine table) op = ([tx], Some (Some ad_history)) /\
      Forall (fun item =>
                IsValid item = true /\
                us_ from_time <= us_ (created_at item) <= us_ to_time /\
                exists r, In r table /\ item = Decode (select_columns r))
             ad_history /\
      StronglySorted
        (fun a b : Item => us_ (created_at b) <= us_ (created_at a))
        ad_history /\
      ad_history
        = filter IsValid (map (fun r => Decode (select_columns r)) rows)).
  { intros q rows -> Hsel Hsorted Hrows.
    eexists. eexists. split; [exact (run_table_engine_step q table rows Hsel)|].
    split; [|split; [now apply decoded_rows_newest_first|reflexivity]].
    apply Forall_forall. intros item Hitem.
    apply filter_In in Hitem. destruct Hitem as [Hitem Hv].
    apply in_map_iff in Hitem. destruct Hitem as (r & <- & Hr).
    destruct (Hrows r Hr) as [Hin Hb].
    split; [exact Hv|]. split; [exact Hb|]. now exists r. }
  cbn in Hop. destruct Hop as [<-|[<-|[]]].
  - destruct (Hgen (SqlSelectForDateRange kTableName (us_ from_time)
                      (us_ to_time)) _ eq_refl eq_refl
                (order_by_created_at_desc_sorted _))
      as (tx & ad_history & Hrun & Hall & Hsorted & Heq).
    { intros r Hr. apply Hp, filter_In in Hr.
      now rewrite between_spec in Hr. }
    exists tx, ad_history. repeat (split; [assumption|]).
    intros _ r Hr Hb Hv. rewrite Heq. apply filter_In. split; [|exact Hv].
    apply in_map_iff. exists r. split; [reflexivity|].
    apply Hp, filter_In. now rewrite between_spec.
  - destruct (Hgen (SqlSelectHighestRankedPlacements kTableName
                      (us_ from_time) (us_ to_time)) _ eq_refl eq_refl
                (order_by_created_at_desc_sorted _))
      as (tx & ad_history & Hrun & Hall & Hsorted & Heq).
    { intros r Hr. apply Hp, In_FilteredAdHistory in Hr. tauto. }
    exists tx, ad_history. repeat (split; [assumption|]).
    intros Hop. discriminate Hop.
Qed.

(** X17: against the same engine, [GetForCreativeInstanceId] with an id
    that holds no quote character hands its completion the valid records
    decoded from the rows stored under that id, in table order; every
    record it returns carries the requested [creative_instance_id]. *)
Theorem Get_for_creative_instance_id_against_table :
  forall (this : AdHistory) (id : string) (table : Table),
    String.index 0 "'" id = None ->
    exists tx ad_history,
      run (table_engine table) (GetForCreativeInstanceId this id)
        = ([tx], Some (Some ad_history)) /\
      ad_history
        = filter IsValid
            (map (fun r => Decode (select_columns r))
               (filter (fun r => String.eqb (row_creative_instance_id r) id)
                       table)) /\
      Forall (fun item : Item =>
                IsValid item = true /\ creative_instance_id item = id)
             ad_history.
Proof.
  intros this id table Hid.
  assert (Hsel : selected_rows
                   (SqlSelectForCreativeInstanceId kTableName id) table
                 = Some (filter (fun r =>
                                   String.eqb (row_creative_instance_id r) id)
                                table))
    by (cbn [selected_rows]; now rewrite Hid).
  eexists. eexists.
  split; [exact (run_table_engine_step _ table _ Hsel)|].
  split; [reflexivity|].
  apply Forall_forall. intros item Hitem.
  apply filter_In in Hitem. destruct Hitem as [Hitem Hv].
  apply in_map_iff in Hitem. destruct Hitem as (r & <- & Hr).
  apply filter_In in Hr. destruct Hr as [_ Hr]. apply String.eqb_eq in Hr.
  split; [exact Hv|exact Hr].
Qed.
End AdHistoryExtras.

(** ** Schema creation and migration *)

(** X18: a migration to version 42 adds to the transaction exactly what
    [Create] adds (the same [CREATE TABLE] text and the same four indexes,
    in the same order, on the same table name), whatever the two helpers
    do with them; a migration to any other version leaves the transaction
    as it is. *)
Theorem Migrate_42_is_Create :
  forall (ExecuteSql : DBTransactionInfo -> string -> DBTransactionInfo)
         (CreateTableIndex :
            DBTransactionInfo -> string -> list string -> DBTransactionInfo)
         (this : AdHistory) (tx : DBTransactionInfo),
    Migrate ExecuteSql CreateTableIndex tx 42
      = Create ExecuteSql CreateTableIndex this tx /\
    forall to_version, to_version <> 42 ->
      Migrate ExecuteSql CreateTableIndex tx to_version = tx.
Proof.
  intros ExecuteSql CreateTableIndex this tx. split; [reflexivity|].
  intros to_version Hv. unfold Migrate.
  destruct (Z.eqb_spec to_version 42); [contradiction|reflexivity].
Qed.

(** ** The further properties on the sample data *)

(** Running X2 on priorities [0, 0, 2, 2, 1]. *)
Lemma buckets_partition_witness :
  exists ads,
    In (candidate_priority ("e", 1), ads)
       (SortCreativeAdsIntoBucketsByPriority candidate_priority
          sample_candidates) /\
    In ("e", 1) ads.
Proof.
  apply (proj2 (proj2 (proj2
           (buckets_partition (string * Z) candidate_priority
              sample_candidates)))).
  - simpl; tauto.
  - discriminate.
Defined.

(** Running X3 on priorities [0, 0, 2, 2, 1]. *)
Lemma HighestPriorityCreativeAds_idempotent_witness :
  candidate_priority ("e", 1) = candidate_priority ("e", 1) /\
  candidate_priority ("e", 1) <> 0.
Proof.
  apply (proj2 (proj2
           (HighestPriorityCreativeAds_idempotent (string * Z)
              candidate_priority sample_candidates)));
    vm_compute; tauto.
Defined.

(** Running X5 on priorities [0, 0, 2, 2, 1] and their reversal. *)
Lemma HighestPriorityCreativeAds_Permutation_witness :
  Permutation
    (HighestPriorityCreativeAds candidate_priority sample_candidates)
    (HighestPriorityCreativeAds candidate_priority (rev sample_candidates)).
Proof.
  apply HighestPriorityCreativeAds_Permutation. apply Permutation_rev.
Defined.


(** Running X7 on the sample table. *)
Lemma highest_ranked_rows_structure_witness :
  incl [sample_row 2 200 "click" "p1"]
       [sample_row 3 300 "served" "p2"; sample_row 2 200 "click" "p1";
        sample_row 1 100 "view" "p1"].
Proof.
  apply (highest_ranked_rows_structure sample_table kTableName 0 1000);
    reflexivity.
Defined.

(** Running X8 on the sample table. *)
Lemma click_wins_its_placement_witness :
  In (sample_row 2 200 "click" "p1") [sample_row 2 200 "click" "p1"].
Proof.
  apply (click_wins_its_placement sample_table kTableName 0 1000).
  - reflexivity.
  - simpl; tauto.
  - simpl; lia.
  - reflexivity.
Defined.


(** Running X10 with retention periods of 100 and 800 microseconds. *)
Lemma PurgeExpired_composition_witness :
  incl (delete_expired (us_ (Time_sub (mkTime 1000) (mkTimeDelta 100)))
          sample_table)
       (delete_expired (us_ (Time_sub (mkTime 1000) (mkTimeDelta 800)))
          sample_table).
Proof.
  apply (proj1 (proj2 (PurgeExpired_composition (mkTime 1000)
                         (mkTimeDelta 100) sample_table))).
  simpl; lia.
Defined.

(** Running X11 on a valid record followed by an invalid one. *)
Lemma Insert_bindings_match_placeholders_witness :
  exists s,
    Insert AdHistory_ctor DBTransactionInfo_New [sample_item; invalid_item]
      = Some (mkDBTransactionInfo (statements DBTransactionInfo_New ++ [s])) /\
    List.length (bind_columns s) = (12 * statement_row_count s)%nat.
Proof.
  destruct (Insert_bindings_match_placeholders AdHistory_ctor
              DBTransactionInfo_New [sample_item; invalid_item])
    as (s & Hinsert & _ & _ & _ & Hlen & _).
  - discriminate.
  - exists s. split; [exact Hinsert|exact Hlen].
Defined.

(** Running X12 on three records with batch size 2. *)
Lemma Save_binds_valid_records_in_order_witness :
  exists tx,
    Save (mkAdHistory 2) [sample_item; invalid_item; sample_item]
      = RunTransaction tx /\
    list_sum (map statement_row_count (statements tx))
      = List.length (filter IsValid
                       [sample_item; invalid_item; sample_item]).
Proof.
  destruct (Save_binds_valid_records_in_order (mkAdHistory 2)
              [sample_item; invalid_item; sample_item])
    as (tx & Hsave & _ & Hsum).
  - discriminate.
  - vm_compute; lia.
  - exists tx. split; [exact Hsave|exact Hsum].
Defined.

(** Running X13 on a valid record followed by an invalid one. *)
Lemma bound_tuples_decode_to_valid_records_witness :
  exists s,
    Insert AdHistory_ctor DBTransactionInfo_New [sample_item; invalid_item]
      = Some (mkDBTransactionInfo (statements DBTransactionInfo_New ++ [s])) /\
    map (fun values => FromMojomRow (mkDBRowInfo values))
        (SplitVector (bound_values s) 12)
      = filter IsValid [sample_item; invalid_item].
Proof.
  apply (bound_tuples_decode_to_valid_records AdHistory_ctor
           DBTransactionInfo_New [sample_item; invalid_item]).
  discriminate.
Defined.

(** Running X14 on a single record. *)
Lemma Insert_guards_the_empty_batch_witness :
  Insert AdHistory_ctor DBTransactionInfo_New [sample_item] <> None.
Proof.
  apply (proj2 (proj2 (proj2
           (Insert_guards_the_empty_batch AdHistory_ctor
              DBTransactionInfo_New (DBStatementInfo_New kRun))))
           [sample_item]).
  discriminate.
Defined.

(** Running X16 on [GetForDateRange] over the sample table. *)
Lemma Get_for_date_range_against_table_witness :
  exists tx ad_history,
    run (table_engine sample_table)
        (GetForDateRange (AdType := SampleAdType)
           (ConfirmationType := SampleConfirmationType) (Gurl := string)
           AdHistory_ctor (mkTime 0) (mkTime 1000))
      = ([tx], Some (Some ad_history)) /\
    StronglySorted
      (fun a b : SampleItem => us_ (created_at b) <= us_ (created_at a))
      ad_history.
Proof.
  destruct (Get_for_date_range_against_table
              (AdType := SampleAdType)
              (ConfirmationType := SampleConfirmationType) (Gurl := string)
              AdHistory_ctor (mkTime 0) (mkTime 1000) sample_table
              (GetForDateRange AdHistory_ctor (mkTime 0) (mkTime 1000))
              (or_introl eq_refl))
    as (tx & ad_history & Hrun & _ & Hsorted & _).
  exists tx, ad_history. split; [exact Hrun|exact Hsorted].
Defined.

(** Running X17 on the sample table. *)
Lemma Get_for_creative_instance_id_against_table_witness :
  exists tx ad_history,
    run (table_engine sample_table)
        (GetForCreativeInstanceId (AdType := SampleAdType)
           (ConfirmationType := SampleConfirmationType) (Gurl := string)
           AdHistory_ctor "instance")
      = ([tx], Some (Some ad_history)) /\
    Forall (fun item : SampleItem =>
              IsValid item = true /\ creative_instance_id item = "instance")
           ad_history.
Proof.
  destruct (Get_for_creative_instance_id_against_table
              (AdType := SampleAdType)
              (ConfirmationType := SampleConfirmationType) (Gurl := string)
              AdHistory_ctor "instance" sample_table eq_refl)
    as (tx & ad_history & Hrun & _ & Hall).
  exists tx, ad_history. split; [exact Hrun|exact Hall].
Defined.

(** Running X18 on a migration to version 41. *)
Lemma Migrate_42_is_Create_witness :
  Migrate (fun tx _ => tx) (fun tx _ _ => tx) DBTransactionInfo_New 41
    = DBTransactionInfo_New.
Proof.
  apply (proj2 (Migrate_42_is_Create (fun tx _ => tx) (fun tx _ _ => tx)
                  AdHistory_ctor DBTransactionInfo_New)).
  discriminate.
Defined.
